(** * NATTEN: naive CPU neighborhood-neighborhood kernel for 3D data

    Shallow embedding of
    [csrc/include/natten/cpu/naive/neighborhood_neighborhood_3d.hpp]
    ([NeighborhoodNeighborhood3D::launch]) and verification of the
    properties its specification states.

    Layout of the development:
    - [Int]: 32 and 64 bit two's complement integers as [Z] with the
      wrap-around written out;
    - [Resolver]: the window boundary resolver ([get_window_start],
      [get_window_end]), which lives in [natten_cpu_commons.h];
    - [Kernel]: the aggregation kernel ([launch]), generic in the scalar
      type and in the resolver it calls, in an error monad that reports
      every out-of-bounds access, and the tensors, windows and sums of
      the specification;
    - [Entry]: [operator()] and the schedules of [at::parallel_for];
    - the theorems, one per specified property, and further properties
      of the kernel. *)

From Stdlib Require Import ZArith Lia List Bool.
From stdpp Require Import base list.

Local Open Scope Z_scope.

(** ** Machine integers *)

Module Int.

(** Two's complement wrap-around of [x] to [w] bits. *)
Definition wrap (w x : Z) : Z :=
  (x + 2 ^ (w - 1)) mod 2 ^ w - 2 ^ (w - 1).

(** [int32_t] and [int64_t] results. *)
Definition i32 (x : Z) : Z := wrap 32 x.
Definition i64 (x : Z) : Z := wrap 64 x.

Definition min32 : Z := - 2 ^ 31.
Definition max32 : Z := 2 ^ 31 - 1.
Definition min64 : Z := - 2 ^ 63.
Definition max64 : Z := 2 ^ 63 - 1.

Definition in32 (x : Z) : Prop := min32 <= x <= max32.
Definition in64 (x : Z) : Prop := min64 <= x <= max64.

End Int.

Import Int.

(** ** Results of the bounds-checked embedding *)

Inductive result (A : Type) : Type :=
| Ok (a : A)
| OutOfBounds
| OutOfFuel.

Arguments Ok {A} a.
Arguments OutOfBounds {A}.
Arguments OutOfFuel {A}.

#[global] Instance result_ret : MRet result := fun A a => Ok a.

#[global] Instance result_bind : MBind result := fun A B f r =>
  match r with
  | Ok a => f a
  | OutOfBounds => OutOfBounds
  | OutOfFuel => OutOfFuel
  end.

(** ** The window boundary resolver *)

Module Resolver.

(** Under dilation an axis splits into [dilation] interleaved lanes; a
    position belongs to the lane of its residue. *)
Definition lane_offset (position dilation : Z) : Z := position mod dilation.
Definition lane_index (position dilation : Z) : Z := position / dilation.

(** Number of positions of [[0, axis_extent)] in the lane [offset]. *)
Definition lane_extent (axis_extent dilation offset : Z) : Z :=
  (axis_extent - 1 - offset) / dilation + 1.

(** Modelled from the spec: [get_window_start] of [natten_cpu_commons.h],
    which this file includes and calls but which is not part of the
    sources at hand.  Arguments in the order of the call sites in
    [launch].

    Section 4.1, dilation: the samples are [dilation] apart from
    [window_start], and section 3 wants the position among them, so
    the policy is applied in the lane of [position] and the bound is
    returned in base-axis units (scenario 4: position 4 under dilation
    2 samples 2, 4 and 6).

    Section 4.1, non-causal policy: the window is centered on the
    position, nominally
    [[position - neighborhood_radius, position + neighborhood_radius]],
    which for an odd kernel size are the [kernel_size] samples from
    [position - neighborhood_radius]; if the window would extend past
    the upper bound it is shifted down by exactly the overflow amount;
    if it would extend past the lower bound it is shifted up, to the
    start of the axis.

    Section 4.1, causal policy: the lower bound is
    [max 0 (position - kernel_size + 1)]. *)
Definition get_window_start
    (position axis_extent kernel_size neighborhood_radius dilation : Z)
    (is_causal : bool) : Z :=
  let offset := lane_offset position dilation in
  let index := lane_index position dilation in
  let extent := lane_extent axis_extent dilation offset in
  let start :=
    if is_causal then Z.max 0 (index - kernel_size + 1)
    else
      let nominal_start := index - neighborhood_radius in
      let overflow := Z.max 0 (nominal_start + kernel_size - extent) in
      Z.max 0 (nominal_start - overflow) in
  start * dilation + offset.

(** Modelled from the spec: [get_window_end] of [natten_cpu_commons.h].
    Causal bound of section 8: [window_end - 1 = position].  Non-causal:
    the window holds [kernel_size] samples [dilation] apart (scenario 4:
    position 4, kernel size 3, dilation 2, extent 9 gives the window
    [[2, 8)]) and, by the contract of section 4.1, does not leave the
    axis. *)
Definition get_window_end
    (position window_start axis_extent kernel_size neighborhood_radius
     dilation : Z) (is_causal : bool) : Z :=
  if is_causal then position + 1
  else Z.min axis_extent (window_start + kernel_size * dilation).

(** The resolver as the kernel uses it: radius [kernel_size / 2], the end
    computed from the start. *)
Definition window (position axis_extent kernel_size dilation : Z)
    (is_causal : bool) : Z * Z :=
  let radius := kernel_size / 2 in
  let s := get_window_start position axis_extent kernel_size radius
             dilation is_causal in
  (s, get_window_end position s axis_extent kernel_size radius dilation
        is_causal).

(** The contract of section 4.1 for a non-causal axis, as it is
    stated: the window contains the position, is at most [kernel_size]
    wide and lies in the axis. *)
Definition stated_contract (position axis_extent kernel_size dilation : Z)
  : Prop :=
  let '(s, e) := window position axis_extent kernel_size dilation false in
  s <= position < e /\ e - s <= kernel_size /\ 0 <= s /\ e <= axis_extent.

End Resolver.

(** ** The aggregation kernel *)

(** The arguments of [launch], under the names of the source. *)
Record launch_args : Type := {
  depth : Z;
  height : Z;
  width : Z;
  heads : Z;
  kernel_size_0 : Z;
  kernel_size_1 : Z;
  kernel_size_2 : Z;
  dilation_0 : Z;
  dilation_1 : Z;
  dilation_2 : Z;
  dim : Z;
  batch_size : Z;
  weights_stride_0 : Z;
  weights_stride_1 : Z;
  weights_stride_2 : Z;
  weights_stride_3 : Z;
  weights_stride_4 : Z;
  is_causal : bool * bool * bool
}.

(** A coordinate [(b, h, k, i, j)] of the output space. *)
Record coordinate : Type := Coordinate {
  cb : Z; ch : Z; ck : Z; ci : Z; cj : Z
}.

(** The window of one axis: [nk] and [ek] (or [ni], [ei]; [nj], [ej]). *)
Record axis_window : Type := AxisWindow { w_start : Z; w_end : Z }.

Module Kernel.
Section Kernel.

(** The scalar type [scalar_t] with its zero, addition and product. *)
Context {scalar_t : Type}.
Variable zero : scalar_t.
Variable add mul : scalar_t -> scalar_t -> scalar_t.

(** The resolver of [natten_cpu_commons.h] that [launch] calls. *)
Variable get_window_start : Z -> Z -> Z -> Z -> Z -> bool -> Z.
Variable get_window_end : Z -> Z -> Z -> Z -> Z -> Z -> bool -> Z.

(** *** Arithmetic at the width of the operands *)

Definition add32 (x y : Z) : Z := i32 (x + y).
Definition sub32 (x y : Z) : Z := i32 (x - y).
Definition mul32 (x y : Z) : Z := i32 (x * y).
Definition div32 (x y : Z) : Z := i32 (x ÷ y).
Definition add64 (x y : Z) : Z := i64 (x + y).
Definition mul64 (x y : Z) : Z := i64 (x * y).

(** *** Buffers: [scalar_t*] with every access checked *)

Definition load (buf : list scalar_t) (index : Z) : result scalar_t :=
  if index <? 0 then OutOfBounds
  else match buf !! Z.to_nat index with
       | Some v => Ok v
       | None => OutOfBounds
       end.

Definition store (buf : list scalar_t) (index : Z) (v : scalar_t)
  : result (list scalar_t) :=
  if (0 <=? index) && (index <? Z.of_nat (length buf))
  then Ok (<[Z.to_nat index := v]> buf)
  else OutOfBounds.

(** *** [for (int32_t x = start; x < end; x += step)] *)

Fixpoint for_loop {A : Type} (fuel : nat) (x e step : Z)
    (body : Z -> A -> result A) (acc : A) : result A :=
  if x <? e then
    match fuel with
    | O => OutOfFuel
    | S fuel' =>
        acc' ← body x acc;
        for_loop fuel' (add32 x step) e step body acc'
    end
  else Ok acc.

(** *** The body of [launch] *)

Section Launch.

Variable a : launch_args.

Definition is_causal_0 : bool := fst (fst (is_causal a)).
Definition is_causal_1 : bool := snd (fst (is_causal a)).
Definition is_causal_2 : bool := snd (is_causal a).
Definition neighborhood_size_0 : Z := div32 (kernel_size_0 a) 2.
Definition neighborhood_size_1 : Z := div32 (kernel_size_1 a) 2.
Definition neighborhood_size_2 : Z := div32 (kernel_size_2 a) 2.
Definition values_stride_4 : Z := i64 (dim a).
Definition values_stride_3 : Z := mul64 (width a) values_stride_4.
Definition values_stride_2 : Z := mul64 (height a) values_stride_3.
Definition values_stride_1 : Z := mul64 (depth a) values_stride_2.
Definition values_stride_0 : Z := mul64 (heads a) values_stride_1.

(** [batch_size * heads * depth * height * width], in [int32_t]. *)
Definition problem_size : Z :=
  mul32 (mul32 (mul32 (mul32 (batch_size a) (heads a)) (depth a))
           (height a)) (width a).

(** Lines 134-144: the coordinate of the flat index [x]. *)
Definition coordinates (x : Z) : coordinate :=
  let indtmp1 := div32 x (width a) in
  let j := sub32 x (mul32 indtmp1 (width a)) in
  let indtmp2 := div32 indtmp1 (height a) in
  let i := sub32 indtmp1 (mul32 indtmp2 (height a)) in
  let indtmp1 := indtmp2 in
  let indtmp2 := div32 indtmp1 (depth a) in
  let k := sub32 indtmp1 (mul32 indtmp2 (depth a)) in
  let indtmp1 := indtmp2 in
  let indtmp2 := div32 indtmp1 (heads a) in
  let h := sub32 indtmp1 (mul32 indtmp2 (heads a)) in
  let b := indtmp2 in
  Coordinate b h k i j.

(** Lines 145-189: the three windows of a coordinate. *)
Definition window_0 (c : coordinate) : axis_window :=
  let nk := get_window_start (ck c) (depth a) (kernel_size_0 a)
              neighborhood_size_0 (dilation_0 a) is_causal_0 in
  AxisWindow nk
    (get_window_end (ck c) nk (depth a) (kernel_size_0 a)
       neighborhood_size_0 (dilation_0 a) is_causal_0).

Definition window_1 (c : coordinate) : axis_window :=
  let ni := get_window_start (ci c) (height a) (kernel_size_1 a)
              neighborhood_size_1 (dilation_1 a) is_causal_1 in
  AxisWindow ni
    (get_window_end (ci c) ni (height a) (kernel_size_1 a)
       neighborhood_size_1 (dilation_1 a) is_causal_1).

Definition window_2 (c : coordinate) : axis_window :=
  let nj := get_window_start (cj c) (width a) (kernel_size_2 a)
              neighborhood_size_2 (dilation_2 a) is_causal_2 in
  AxisWindow nj
    (get_window_end (cj c) nj (width a) (kernel_size_2 a)
       neighborhood_size_2 (dilation_2 a) is_causal_2).

(** Lines 192-194. *)
Definition weightsOffset (c : coordinate) : Z :=
  add64 (add64 (add64 (add64
    (mul64 (cb c) (weights_stride_0 a))
    (mul64 (ch c) (weights_stride_1 a)))
    (mul64 (ck c) (weights_stride_2 a)))
    (mul64 (ci c) (weights_stride_3 a)))
    (mul64 (cj c) (weights_stride_4 a)).

(** Lines 195-196. *)
Definition valuesOffset (c : coordinate) (d : Z) : Z :=
  add64 (add64 (mul64 (cb c) values_stride_0)
               (mul64 (ch c) values_stride_1)) d.

(** Lines 200-201. *)
Definition valuesIndex (c : coordinate) (d xk xi xj : Z) : Z :=
  add64 (add64 (add64 (valuesOffset c d)
    (mul64 xk values_stride_2))
    (mul64 xi values_stride_3))
    (mul64 xj values_stride_4).

(** Lines 202-206: the three products are [int32_t] products, the sums
    are [int64_t] sums. *)
Definition weightsIndex (c : coordinate) (nk ni nj xk xi xj : Z) : Z :=
  add64 (add64 (add64 (weightsOffset c)
    (mul32 (div32 (sub32 xk nk) (dilation_0 a))
           (mul32 (kernel_size_1 a) (kernel_size_2 a))))
    (mul32 (div32 (sub32 xi ni) (dilation_1 a)) (kernel_size_2 a)))
    (div32 (sub32 xj nj) (dilation_2 a)).

(** Lines 211-213. *)
Definition linearIndex (c : coordinate) (d : Z) : Z :=
  add64 (add64 (add64 (add64 (add64
    (mul64 (cb c) values_stride_0)
    (mul64 (ch c) values_stride_1))
    (mul64 (ck c) values_stride_2))
    (mul64 (ci c) values_stride_3))
    (mul64 (cj c) values_stride_4)) d.

Variable fuel : nat.
Variables weights values : list scalar_t.

(** Lines 191-210: the accumulator [updt] of one output element. *)
Definition accumulate (c : coordinate) (d : Z) : result scalar_t :=
  let '(AxisWindow nk ek) := window_0 c in
  let '(AxisWindow ni ei) := window_1 c in
  let '(AxisWindow nj ej) := window_2 c in
  let updt := zero in
  for_loop fuel nk ek (dilation_0 a) (fun xk updt =>
    for_loop fuel ni ei (dilation_1 a) (fun xi updt =>
      for_loop fuel nj ej (dilation_2 a) (fun xj updt =>
        w ← load weights (weightsIndex c nk ni nj xk xi xj);
        v ← load values (valuesIndex c d xk xi xj);
        mret (add updt (mul w v)))
      updt)
    updt)
  updt.

(** Lines 190-215: the channel loop of one coordinate. *)
Definition channels (c : coordinate) (output : list scalar_t)
  : result (list scalar_t) :=
  for_loop fuel 0 (dim a) 1 (fun d output =>
    updt ← accumulate c d;
    store output (linearIndex c d) updt)
  output.

(** Lines 132-217: the function that [at::parallel_for] runs on a chunk
    [[start, end)] of the flat range. *)
Definition chunk (start end_ : Z) (output : list scalar_t)
  : result (list scalar_t) :=
  for_loop fuel start end_ 1 (fun x output => channels (coordinates x) output)
  output.

(** [launch].  [at::parallel_for] splits [[0, problem_size)] into
    chunks and runs them on the threads of its pool; the chunks write
    disjoint parts of [output] and read buffers nobody writes, so one
    chunk that covers the range stands for every schedule. *)
Definition launch (output : list scalar_t) : result (list scalar_t) :=
  chunk 0 problem_size output.

End Launch.

(** *** What the loops visit *)

(** [n] values from [start], [step] apart. *)
Fixpoint strided (n : nat) (start step : Z) : list Z :=
  match n with
  | O => []
  | S n' => start :: strided n' (start + step) step
  end.

(** [ceil ((window_end - window_start) / dilation)], and none when the
    window is empty. *)
Definition sample_count (window_start window_end dilation : Z) : nat :=
  Z.to_nat ((window_end - window_start + dilation - 1) / dilation).

(** The positions of a window, [dilation] apart from its start. *)
Definition window_positions (w : axis_window) (dilation : Z) : list Z :=
  strided (sample_count (w_start w) (w_end w) dilation) (w_start w) dilation.

(** The positions that the loop
    [for (x = window_start; x < window_end; x += dilation)] visits. *)
Definition sampled_positions (fuel : nat)
    (window_start window_end dilation : Z) : result (list Z) :=
  for_loop fuel window_start window_end dilation
    (fun x visited => Ok (visited ++ [x])) [].

(** A loop body run on the elements of a list, in order. *)
Fixpoint fold_result {A : Type} (body : Z -> A -> result A) (l : list Z)
    (acc : A) : result A :=
  match l with
  | [] => Ok acc
  | x :: l' => acc' ← body x acc; fold_result body l' acc'
  end.

(** *** The tensors as the specification sees them *)

Section Views.

Variable a : launch_args.

Definition kernel_volume : Z :=
  kernel_size_0 a * kernel_size_1 a * kernel_size_2 a.

(** Number of coordinates, and of elements of [values] and [output]. *)
Definition coordinate_count : Z :=
  batch_size a * heads a * depth a * height a * width a.

Definition in_space (c : coordinate) : Prop :=
  0 <= cb c < batch_size a /\ 0 <= ch c < heads a /\
  0 <= ck c < depth a /\ 0 <= ci c < height a /\ 0 <= cj c < width a.

(** Row-major flat index of a coordinate, [j] fastest. *)
Definition flatten (c : coordinate) : Z :=
  (((cb c * heads a + ch c) * depth a + ck c) * height a + ci c)
  * width a + cj c.

(** Offset of [values[b, h, k, i, j, d]] and [output[b, h, k, i, j, d]]:
    densely packed, channels fastest. *)
Definition dense_offset (c : coordinate) (d : Z) : Z :=
  flatten c * dim a + d.

(** Offset of [weights[b, h, k, i, j, e]] in a view whose last dimension
    has stride [last_stride]: the sum of index times stride. *)
Definition strided_offset (last_stride : Z) (c : coordinate) (e : Z) : Z :=
  cb c * weights_stride_0 a + ch c * weights_stride_1 a
  + ck c * weights_stride_2 a + ci c * weights_stride_3 a
  + cj c * weights_stride_4 a + e * last_stride.

Definition at_offset (buf : list scalar_t) (offset : Z) : scalar_t :=
  nth (Z.to_nat offset) buf zero.

(** [enum]: the offsets from the window starts, in units of the
    dilation, linearized row-major with axis 0 slowest. *)
Definition enum (w0 w1 w2 : axis_window) (xk xi xj : Z) : Z :=
  (xk - w_start w0) / dilation_0 a * kernel_size_1 a * kernel_size_2 a
  + (xi - w_start w1) / dilation_1 a * kernel_size_2 a
  + (xj - w_start w2) / dilation_2 a.

(** The sum of [f] over the elements of [l]. *)
Definition sum_over (l : list Z) (f : Z -> scalar_t) : scalar_t :=
  foldr (fun x s => add (f x) s) zero l.

(** *** The windows and the sum of section 4.3 *)

(** Sections 3 and 4.3: the window of an axis is produced by the
    resolver from the position on the axis and the extent, the kernel
    size, the radius [kernel_size / 2], the dilation and the causal
    flag of that axis. *)
Definition resolve (position axis_extent kernel_size dilation : Z)
    (causal : bool) : axis_window :=
  let radius := kernel_size / 2 in
  let window_start :=
    get_window_start position axis_extent kernel_size radius dilation
      causal in
  AxisWindow window_start
    (get_window_end position window_start axis_extent kernel_size radius
       dilation causal).

(** [window_k], [window_i] and [window_j] of a coordinate
    [(b, h, k, i, j)]: axis 0 has the extent [depth], axis 1 the extent
    [height], axis 2 the extent [width]. *)
Definition window_k (c : coordinate) : axis_window :=
  resolve (ck c) (depth a) (kernel_size_0 a) (dilation_0 a)
    (fst (fst (is_causal a))).

Definition window_i (c : coordinate) : axis_window :=
  resolve (ci c) (height a) (kernel_size_1 a) (dilation_1 a)
    (snd (fst (is_causal a))).

Definition window_j (c : coordinate) : axis_window :=
  resolve (cj c) (width a) (kernel_size_2 a) (dilation_2 a)
    (snd (is_causal a)).

(** [weights[b, h, k, i, j, enum xk xi xj] * values[b, h, xk, xi, xj, d]]. *)
Definition term (weights values : list scalar_t) (c : coordinate) (d : Z)
    (x : Z * Z * Z) : scalar_t :=
  let '(xk, xi, xj) := x in
  mul (at_offset weights
         (strided_offset 1 c
            (enum (window_k c) (window_i c) (window_j c) xk xi xj)))
      (at_offset values
         (dense_offset (Coordinate (cb c) (ch c) xk xi xj) d)).

(** Section 4.3: the sum over [xk], [xi] and [xj] in the three windows,
    each stepped by its dilation, taken as the brute-force triple
    nested loop of section 8 takes it: one sum, from [zero], in the
    order of the enumeration. *)
Definition weighted_sum (weights values : list scalar_t)
    (c : coordinate) (d : Z) : scalar_t :=
  fold_left (fun sum xk =>
    fold_left (fun sum xi =>
      fold_left (fun sum xj => add sum (term weights values c d (xk, xi, xj)))
        (window_positions (window_j c) (dilation_2 a)) sum)
      (window_positions (window_i c) (dilation_1 a)) sum)
    (window_positions (window_k c) (dilation_0 a)) zero.

(** The same sum as a sum of sums of sums, which is how it reads when
    the order of the additions does not matter. *)
Definition sum_of_sums (weights values : list scalar_t)
    (c : coordinate) (d : Z) : scalar_t :=
  sum_over (window_positions (window_k c) (dilation_0 a)) (fun xk =>
    sum_over (window_positions (window_i c) (dilation_1 a)) (fun xi =>
      sum_over (window_positions (window_j c) (dilation_2 a)) (fun xj =>
        term weights values c d (xk, xi, xj)))).

(** The positions of the three windows in row-major order: axis 0
    outermost, axis 2 innermost. *)
Definition window_order (c : coordinate) : list (Z * Z * Z) :=
  xk ← window_positions (window_k c) (dilation_0 a);
  xi ← window_positions (window_i c) (dilation_1 a);
  xj ← window_positions (window_j c) (dilation_2 a);
  [(xk, xi, xj)].

(** *** What the kernel does, in its own terms *)

(** The positions that the window loops of [launch] visit for [c], in
    the order of the visits. *)
Definition row_major (c : coordinate) : list (Z * Z * Z) :=
  xk ← window_positions (window_0 a c) (dilation_0 a);
  xi ← window_positions (window_1 a c) (dilation_1 a);
  xj ← window_positions (window_2 a c) (dilation_2 a);
  [(xk, xi, xj)].

(** The product that the kernel forms at a position of the window. *)
Definition product (weights values : list scalar_t) (c : coordinate)
    (d : Z) (x : Z * Z * Z) : scalar_t :=
  let '(xk, xi, xj) := x in
  mul (at_offset weights
         (weightsIndex a c (w_start (window_0 a c)) (w_start (window_1 a c))
            (w_start (window_2 a c)) xk xi xj))
      (at_offset values (valuesIndex a c d xk xi xj)).

(** The products of the window added one after the other, from
    [zero], in [scalar_t]. *)
Definition ordered_sum (weights values : list scalar_t) (c : coordinate)
    (d : Z) : scalar_t :=
  fold_left (fun updt x => add updt (product weights values c d x))
    (row_major c) zero.

(** The offsets that [launch] stores to, in the order of the stores. *)
Definition store_trace : list Z :=
  x ← strided (Z.to_nat (problem_size a)) 0 1;
  d ← strided (Z.to_nat (dim a)) 0 1;
  [linearIndex a (coordinates a x) d].

(** *** The preconditions of a launch *)

(** Shapes are positive, kernel sizes and dilations at least one, and
    every quantity fits the integer type that holds it. *)
Record valid_shape : Prop := {
  batch_size_pos : 0 < batch_size a;
  heads_pos : 0 < heads a;
  depth_pos : 0 < depth a;
  height_pos : 0 < height a;
  width_pos : 0 < width a;
  dim_pos : 0 < dim a;
  dim_fits : dim a <= max32;
  coordinate_count_fits : coordinate_count <= max32;
  element_count_fits : coordinate_count * dim a <= max64;
  kernel_size_0_pos : 1 <= kernel_size_0 a;
  kernel_size_1_pos : 1 <= kernel_size_1 a;
  kernel_size_2_pos : 1 <= kernel_size_2 a;
  kernel_volume_fits : kernel_volume <= max32;
  dilation_0_pos : 1 <= dilation_0 a;
  dilation_1_pos : 1 <= dilation_1 a;
  dilation_2_pos : 1 <= dilation_2 a;
  step_0_fits : depth a + dilation_0 a <= max32;
  step_1_fits : height a + dilation_1 a <= max32;
  step_2_fits : width a + dilation_2 a <= max32
}.

(** The window of every position of an axis lies in the axis and
    spans at most [kernel_size] steps of the dilation. *)
Definition axis_in_range (extent kernel_size neighborhood_size dilation : Z)
    (causal : bool) : bool :=
  forallb (fun p =>
    let s := get_window_start p extent kernel_size neighborhood_size
               dilation causal in
    let e := get_window_end p s extent kernel_size neighborhood_size
               dilation causal in
    (0 <=? s) && (e <=? extent) && (e - s <=? kernel_size * dilation))
  (strided (Z.to_nat extent) 0 1).

Definition windows_in_range : bool :=
  axis_in_range (depth a) (kernel_size_0 a) (neighborhood_size_0 a)
    (dilation_0 a) (is_causal_0 a)
  && axis_in_range (height a) (kernel_size_1 a) (neighborhood_size_1 a)
       (dilation_1 a) (is_causal_1 a)
  && axis_in_range (width a) (kernel_size_2 a) (neighborhood_size_2 a)
       (dilation_2 a) (is_causal_2 a).

(** The same of the windows of section 4.3. *)
Definition resolved_in_range : bool :=
  axis_in_range (depth a) (kernel_size_0 a) (kernel_size_0 a / 2)
    (dilation_0 a) (fst (fst (is_causal a)))
  && axis_in_range (height a) (kernel_size_1 a) (kernel_size_1 a / 2)
       (dilation_1 a) (snd (fst (is_causal a)))
  && axis_in_range (width a) (kernel_size_2 a) (kernel_size_2 a / 2)
       (dilation_2 a) (snd (is_causal a)).

(** The strides describe the layout of [weights]: the [kernel_volume]
    weights of every coordinate lie in the buffer. *)
Definition weights_in_range (weights : list scalar_t) : bool :=
  (Z.of_nat (length weights) <=? max64)
  && forallb (fun x =>
       let offset := strided_offset 1 (coordinates a x) 0 in
       (0 <=? offset)
       && (offset + kernel_volume <=? Z.of_nat (length weights)))
     (strided (Z.to_nat coordinate_count) 0 1).

(** The three buffers have the shapes of section 6. *)
Definition valid_buffers (weights values output : list scalar_t) : Prop :=
  weights_in_range weights = true
  /\ Z.of_nat (length values) = coordinate_count * dim a
  /\ Z.of_nat (length output) = coordinate_count * dim a.

(** [after] is [before] with the offsets of [[lo, hi)] overwritten by
    the values [f] gives them. *)
Definition written_between (lo hi : Z) (f : Z -> scalar_t)
    (before after : list scalar_t) : Prop :=
  length after = length before
  /\ forall n, 0 <= n < Z.of_nat (length before) ->
       after !! Z.to_nat n
       = if (lo <=? n) && (n <? hi) then Some (f n)
         else before !! Z.to_nat n.

(** The value that [launch] leaves at an offset of [output]. *)
Definition element (weights values : list scalar_t) (n : Z) : scalar_t :=
  ordered_sum weights values (coordinates a (n / dim a)) (n mod dim a).

(** Iterations of the longest loop. *)
Definition fuel_needed : nat :=
  Z.to_nat (Z.max coordinate_count
    (Z.max (dim a)
      (Z.max (kernel_size_0 a)
         (Z.max (kernel_size_1 a) (kernel_size_2 a))))).

End Views.

End Kernel.
End Kernel.

(** ** The entry point, schedules and reads *)

Module Entry.
Section Entry.

Context {scalar_t : Type}.
Variable zero : scalar_t.
Variable add mul : scalar_t -> scalar_t -> scalar_t.
Variable get_window_start : Z -> Z -> Z -> Z -> Z -> bool -> Z.
Variable get_window_end : Z -> Z -> Z -> Z -> Z -> Z -> bool -> Z.

(** Lines 71-92: the arguments that [operator()] hands to [launch], in
    the order of the call; [std::get<n>] of a triple. *)
Definition operator_args
    (batch_size heads depth height width dim : Z)
    (attn_stride_0 attn_stride_1 attn_stride_2 attn_stride_3 attn_stride_4 : Z)
    (kernel_size dilation : Z * Z * Z) (is_causal : bool * bool * bool)
  : launch_args :=
  {| depth := depth;
     height := height;
     width := width;
     heads := heads;
     kernel_size_0 := fst (fst kernel_size);
     kernel_size_1 := snd (fst kernel_size);
     kernel_size_2 := snd kernel_size;
     dilation_0 := fst (fst dilation);
     dilation_1 := snd (fst dilation);
     dilation_2 := snd dilation;
     dim := dim;
     batch_size := batch_size;
     weights_stride_0 := attn_stride_0;
     weights_stride_1 := attn_stride_1;
     weights_stride_2 := attn_stride_2;
     weights_stride_3 := attn_stride_3;
     weights_stride_4 := attn_stride_4;
     is_causal := is_causal |}.

(** Lines 53-93: [operator()] of [NeighborhoodNeighborhood3D]; the three
    [void*] are the buffers of [scalar_t] they are cast to. *)
Definition NeighborhoodNeighborhood3D (fuel : nat)
    (attn_ptr value_ptr output_ptr : list scalar_t)
    (batch_size heads depth height width dim : Z)
    (attn_stride_0 attn_stride_1 attn_stride_2 attn_stride_3 attn_stride_4 : Z)
    (kernel_size dilation : Z * Z * Z) (is_causal : bool * bool * bool)
  : result (list scalar_t) :=
  Kernel.launch zero add mul get_window_start get_window_end
    (operator_args batch_size heads depth height width dim
       attn_stride_0 attn_stride_1 attn_stride_2 attn_stride_3 attn_stride_4
       kernel_size dilation is_causal)
    fuel attn_ptr value_ptr output_ptr.

Section Schedules.

Variable a : launch_args.
Variable fuel : nat.
Variables weights values : list scalar_t.

(** The function of lines 132-217 run on the chunks of a list, one after
    the other: a schedule of [at::parallel_for]. *)
Fixpoint run_chunks (chunks : list (Z * Z)) (output : list scalar_t)
  : result (list scalar_t) :=
  match chunks with
  | [] => Ok output
  | (start, end_) :: rest =>
      output' ← Kernel.chunk zero add mul get_window_start get_window_end a
                  fuel weights values start end_ output;
      run_chunks rest output'
  end.

End Schedules.

(** Every chunk [[start, end)] lies in [[0, n)]. *)
Definition chunks_inside (n : Z) (chunks : list (Z * Z)) : bool :=
  forallb (fun chunk : Z * Z =>
    (0 <=? fst chunk) && (fst chunk <=? snd chunk) && (snd chunk <=? n))
  chunks.

(** Some chunk holds [x]. *)
Definition in_chunks (chunks : list (Z * Z)) (x : Z) : bool :=
  existsb (fun chunk : Z * Z => (fst chunk <=? x) && (x <? snd chunk)) chunks.

(** Every index of [[0, n)] is in a chunk. *)
Definition chunks_cover (n : Z) (chunks : list (Z * Z)) : bool :=
  forallb (in_chunks chunks) (Kernel.strided (Z.to_nat n) 0 1).

(** The offsets into [weights] and [values] that the window loops of an
    output element read, in the order of the reads. *)
Definition weight_reads (a : launch_args) (c : coordinate) : list Z :=
  (fun x : Z * Z * Z =>
     let '(xk, xi, xj) := x in
     Kernel.weightsIndex a c
       (w_start (Kernel.window_0 get_window_start get_window_end a c))
       (w_start (Kernel.window_1 get_window_start get_window_end a c))
       (w_start (Kernel.window_2 get_window_start get_window_end a c))
       xk xi xj)
  <$> Kernel.row_major get_window_start get_window_end a c.

Definition value_reads (a : launch_args) (c : coordinate) (d : Z) : list Z :=
  (fun x : Z * Z * Z =>
     let '(xk, xi, xj) := x in Kernel.valuesIndex a c d xk xi xj)
  <$> Kernel.row_major get_window_start get_window_end a c.

End Entry.
End Entry.

(** ** Sample launches on integer scalars *)

Module Sample.

(** Contiguous weights for the shape and the kernel sizes. *)
Definition args (batch_size heads depth height width dim : Z)
    (kernel_size dilation : Z * Z * Z) (is_causal : bool * bool * bool)
  : launch_args :=
  let '(k0, k1, k2) := kernel_size in
  let '(d0, d1, d2) := dilation in
  let volume := k0 * k1 * k2 in
  {| depth := depth; height := height; width := width; heads := heads;
     kernel_size_0 := k0; kernel_size_1 := k1; kernel_size_2 := k2;
     dilation_0 := d0; dilation_1 := d1; dilation_2 := d2;
     dim := dim; batch_size := batch_size;
     weights_stride_0 := heads * depth * height * width * volume;
     weights_stride_1 := depth * height * width * volume;
     weights_stride_2 := height * width * volume;
     weights_stride_3 := width * volume;
     weights_stride_4 := volume;
     is_causal := is_causal |}.

Definition iota (n : nat) : list Z := map Z.of_nat (seq 1 n).

(** Two heads of a 1 x 2 x 9 volume with two channels; kernel 1 x 2 x 3,
    causal on the middle axis and dilated by 2 on the last. *)
Definition small : launch_args :=
  args 1 2 1 2 9 2 (1, 2, 3) (1, 1, 2) (false, true, false).
Definition small_weights : list Z := iota 216.
Definition small_values : list Z := iota 72.
Definition small_output : list Z := replicate 72 0.

(** A row of 3 positions with one channel; kernel size 3 and dilation 2
    on the last axis, not causal. *)
Definition narrow : launch_args :=
  args 1 1 1 1 3 1 (1, 1, 3) (1, 1, 2) (false, false, false).
Definition narrow_weights : list Z := iota 9.
Definition narrow_values : list Z := iota 3.
Definition narrow_output : list Z := replicate 3 0.

(** The buffers of [small] with their last element changed. *)
Definition other_weights : list Z := <[215%nat := 0]> small_weights.
Definition other_values : list Z := <[71%nat := 0]> small_values.

(** Two batches of a 4 x 3 x 5 volume with two channels; kernel
    2 x 3 x 1 and dilation 2 x 1 x 3, so that the three axes differ in
    extent, kernel size and dilation; causal on the first axis. *)
Definition skew : launch_args :=
  args 2 1 4 3 5 2 (2, 3, 1) (2, 1, 3) (true, false, false).
Definition skew_weights : list Z := iota 720.
Definition skew_values : list Z := iota 240.
Definition skew_output : list Z := replicate 240 0.

Definition run (a : launch_args) (fuel : nat)
    (weights values output : list Z) : result (list Z) :=
  Kernel.launch 0 Z.add Z.mul Resolver.get_window_start
    Resolver.get_window_end a fuel weights values output.

End Sample.

(** ** Facts about machine integers *)

Module IntFacts.

Lemma wrap_small w x :
  0 < w -> - 2 ^ (w - 1) <= x < 2 ^ (w - 1) -> wrap w x = x.
Proof.
  intros Hw Hx. unfold wrap.
  assert (H2 : 2 ^ w = 2 * 2 ^ (w - 1)).
  { rewrite <- Z.pow_succ_r by lia. f_equal. lia. }
  rewrite Z.mod_small by lia. lia.
Qed.

Lemma wrap_mod w x : 0 < w -> wrap w x mod 2 ^ w = x mod 2 ^ w.
Proof.
  intros Hw. unfold wrap.
  assert (Hpos : 0 < 2 ^ w) by (apply Z.pow_pos_nonneg; lia).
  rewrite Zminus_mod, Z.mod_mod by lia.
  rewrite <- Zminus_mod. f_equal. lia.
Qed.

Lemma wrap_congr w x y : x mod 2 ^ w = y mod 2 ^ w -> wrap w x = wrap w y.
Proof.
  intros H. unfold wrap.
  rewrite (Zplus_mod x), (Zplus_mod y), H. reflexivity.
Qed.

Lemma i32_small x : in32 x -> i32 x = x.
Proof.
  unfold in32, min32, max32, i32. intros H.
  apply wrap_small; [lia|]. change (32 - 1) with 31. lia.
Qed.

Lemma i64_small x : in64 x -> i64 x = x.
Proof.
  unfold in64, min64, max64, i64. intros H.
  apply wrap_small; [lia|]. change (64 - 1) with 63. lia.
Qed.

End IntFacts.

Import IntFacts.

(** ** Facts about the loops *)

Module LoopFacts.
Import Kernel.

Lemma length_strided n start step : length (strided n start step) = n.
Proof.
  revert start. induction n as [|n IH]; intros start; simpl; [reflexivity|].
  now rewrite IH.
Qed.

Lemma in_strided n start step x :
  In x (strided n start step) <->
  exists t, 0 <= t < Z.of_nat n /\ x = start + t * step.
Proof.
  revert start. induction n as [|n IH]; intros start; simpl.
  - split; [tauto | intros (t & Ht & _); lia].
  - rewrite IH. split.
    + intros [<- | (t & Ht & ->)].
      * exists 0. lia.
      * exists (t + 1). lia.
    + intros (t & Ht & ->).
      destruct (Z.eq_dec t 0) as [-> | Hne]; [left; lia|].
      right. exists (t - 1). lia.
Qed.

Lemma strided_app n m start step :
  strided (n + m) start step =
  strided n start step ++ strided m (start + Z.of_nat n * step) step.
Proof.
  revert start. induction n as [|n IH]; intros start.
  - simpl. f_equal. lia.
  - cbn [strided Nat.add app]. rewrite IH. do 3 f_equal. lia.
Qed.

Lemma sample_count_empty s e step :
  1 <= step -> e <= s -> sample_count s e step = 0%nat.
Proof.
  intros Hstep Hle. unfold sample_count.
  assert ((e - s + step - 1) / step <= 0); [|lia].
  assert ((e - s + step - 1) / step < 1); [|lia].
  apply Z.div_lt_upper_bound; lia.
Qed.

Lemma sample_count_step s e step :
  1 <= step -> s < e ->
  sample_count s e step = S (sample_count (s + step) e step).
Proof.
  intros Hstep Hlt. unfold sample_count.
  replace (e - s + step - 1) with ((e - (s + step) + step - 1) + 1 * step)
    by lia.
  rewrite Z.div_add by lia.
  assert (0 <= (e - (s + step) + step - 1) / step).
  { apply Z.div_pos; lia. }
  lia.
Qed.

(** The samples of a window: [ceil ((e - s) / step)] as an integer. *)
Lemma sample_count_ceil s e step :
  1 <= step -> s <= e ->
  Z.of_nat (sample_count s e step) = (e - s + step - 1) / step.
Proof.
  intros Hstep Hle. unfold sample_count.
  rewrite Z2Nat.id; [reflexivity|]. apply Z.div_pos; lia.
Qed.

Lemma sample_count_bound s e step n :
  1 <= step -> 0 <= n -> e - s <= n * step ->
  Z.of_nat (sample_count s e step) <= n.
Proof.
  intros Hstep Hn Hle. unfold sample_count.
  assert ((e - s + step - 1) / step < n + 1); [|lia].
  apply Z.div_lt_upper_bound; nia.
Qed.

(** With enough fuel, and increments that stay in [int32_t], the loop
    runs its body on the strided positions of the range. *)
Lemma for_loop_strided {A} (body : Z -> A -> result A) e step :
  1 <= step -> e + step <= max32 + 1 ->
  forall fuel x acc,
    min32 <= x -> (sample_count x e step <= fuel)%nat ->
    for_loop fuel x e step body acc =
    fold_result body (strided (sample_count x e step) x step) acc.
Proof.
  intros Hstep He. induction fuel as [|fuel IH]; intros x acc Hx Hfuel.
  - simpl. destruct (Z.ltb_spec x e) as [Hlt | Hge].
    + rewrite sample_count_step in Hfuel by lia. lia.
    + now rewrite sample_count_empty by lia.
  - simpl. destruct (Z.ltb_spec x e) as [Hlt | Hge].
    + rewrite sample_count_step in * by lia. simpl.
      assert (Hnext : add32 x step = x + step).
      { apply i32_small. unfold in32. lia. }
      rewrite Hnext.
      destruct (body x acc) as [acc'| |]; simpl; try reflexivity.
      apply IH; lia.
    + now rewrite sample_count_empty by lia.
Qed.

Lemma sample_count_unit lo hi :
  lo <= hi -> sample_count lo hi 1 = Z.to_nat (hi - lo).
Proof.
  intros Hle. unfold sample_count. f_equal. rewrite Z.div_1_r. lia.
Qed.

(** [for (x = lo; x < hi; x++)]. *)
Lemma counting_loop {A} (body : Z -> A -> result A) fuel lo hi acc :
  min32 <= lo -> lo <= hi -> hi <= max32 ->
  Z.of_nat (Z.to_nat (hi - lo)) <= Z.of_nat fuel ->
  for_loop fuel lo hi 1 body acc
  = fold_result body (strided (Z.to_nat (hi - lo)) lo 1) acc.
Proof.
  intros Hlo Hle Hhi Hfuel.
  rewrite for_loop_strided by (rewrite ?sample_count_unit; lia).
  now rewrite sample_count_unit.
Qed.

Lemma fold_result_ext {A} (body body' : Z -> A -> result A) l acc :
  (forall x acc, In x l -> body x acc = body' x acc) ->
  fold_result body l acc = fold_result body' l acc.
Proof.
  revert acc. induction l as [|x l IH]; intros acc Hext; simpl; [reflexivity|].
  rewrite Hext by (now left).
  destruct (body' x acc); simpl; try reflexivity.
  apply IH. intros; apply Hext; now right.
Qed.

Lemma fold_result_collect l visited :
  fold_result (fun x visited => Ok (visited ++ [x])) l visited
  = Ok (visited ++ l).
Proof.
  revert visited. induction l as [|x l IH]; intros visited; simpl.
  - now rewrite app_nil_r.
  - change (fold_result (fun x visited => Ok (visited ++ [x])) l (visited ++ [x])
            = Ok (visited ++ x :: l)).
    rewrite IH, <- app_assoc. reflexivity.
Qed.

Lemma sampled_positions_strided fuel s e step :
  1 <= step -> e + step <= max32 + 1 -> min32 <= s ->
  (sample_count s e step <= fuel)%nat ->
  sampled_positions fuel s e step
  = Ok (strided (sample_count s e step) s step).
Proof.
  intros Hstep He Hs Hfuel. unfold sampled_positions.
  rewrite for_loop_strided by assumption.
  apply fold_result_collect.
Qed.

End LoopFacts.

(** ** Facts about the resolver *)

Module ResolverFacts.
Import Resolver Kernel LoopFacts.

(** The lane of a position: its index and offset, and how far the lane
    reaches. *)
Lemma lane_facts position axis_extent dilation :
  1 <= dilation -> 0 <= position < axis_extent ->
  let offset := lane_offset position dilation in
  let index := lane_index position dilation in
  let extent := lane_extent axis_extent dilation offset in
  position = index * dilation + offset
  /\ 0 <= offset < dilation
  /\ 0 <= index < extent
  /\ (extent - 1) * dilation + offset <= axis_extent - 1
  /\ axis_extent <= extent * dilation + offset.
Proof.
  intros Hd Hp. unfold lane_offset, lane_index, lane_extent. cbv zeta.
  pose proof (Z.div_mod position dilation ltac:(lia)) as Hpos.
  pose proof (Z.mod_pos_bound position dilation ltac:(lia)) as Hoff.
  set (offset := position mod dilation) in *.
  set (index := position / dilation) in *.
  pose proof (Z.div_mod (axis_extent - 1 - offset) dilation ltac:(lia)) as Hext.
  pose proof (Z.mod_pos_bound (axis_extent - 1 - offset) dilation ltac:(lia))
    as Hrem.
  set (reach := (axis_extent - 1 - offset) / dilation) in *.
  assert (0 <= index) by (apply Z.div_pos; lia).
  assert (index <= reach).
  { assert (index < reach + 1); [|lia]. nia. }
  repeat split; try lia; nia.
Qed.

Lemma radius_facts kernel_size :
  1 <= kernel_size ->
  0 <= kernel_size / 2 < kernel_size
  /\ 2 * (kernel_size / 2) <= kernel_size <= 2 * (kernel_size / 2) + 1.
Proof.
  intros Hk.
  pose proof (Z.div_mod kernel_size 2 ltac:(lia)).
  pose proof (Z.mod_pos_bound kernel_size 2 ltac:(lia)). lia.
Qed.

(** The resolved window in lane units: [start * dilation + offset]. *)
Lemma window_start_lane position axis_extent kernel_size radius dilation
    causal :
  get_window_start position axis_extent kernel_size radius dilation causal
  = (if causal
     then Z.max 0 (lane_index position dilation - kernel_size + 1)
     else Z.max 0
            (lane_index position dilation - radius
             - Z.max 0 (lane_index position dilation - radius + kernel_size
                        - lane_extent axis_extent dilation
                            (lane_offset position dilation))))
    * dilation + lane_offset position dilation.
Proof. unfold get_window_start. now destruct causal. Qed.

(** Every window starts in the axis, at or before its position, in the
    lane of the position and less than [kernel_size] steps before it.
    It ends after the position, in the axis, within [kernel_size] steps
    of its start. *)
Lemma window_shape position axis_extent kernel_size dilation causal :
  0 <= position < axis_extent -> 1 <= kernel_size -> 1 <= dilation ->
  let '(s, e) := window position axis_extent kernel_size dilation causal in
  exists t, 0 <= t < kernel_size /\ position = s + t * dilation
            /\ 0 <= s /\ position < e /\ e - s <= kernel_size * dilation
            /\ e <= axis_extent
            /\ (causal = true -> e = position + 1)
            /\ (causal = false ->
                e = Z.min axis_extent (s + kernel_size * dilation)).
Proof.
  intros Hp Hk Hd. unfold window, get_window_end.
  rewrite window_start_lane.
  destruct (lane_facts position axis_extent dilation Hd Hp)
    as (Hpos & Hoff & Hidx & Hlast & Hreach).
  set (offset := lane_offset position dilation) in *.
  set (index := lane_index position dilation) in *.
  set (extent := lane_extent axis_extent dilation offset) in *.
  pose proof (radius_facts kernel_size Hk) as Hr.
  set (radius := kernel_size / 2) in *.
  destruct causal.
  - remember (Z.max 0 (index - kernel_size + 1)) as start eqn:Hstart.
    assert (Hs : index - kernel_size < start <= index /\ 0 <= start) by lia.
    clear Hstart.
    exists (index - start).
    repeat split; try discriminate; try nia; try lia.
  - remember (Z.max 0 (index - radius
                       - Z.max 0 (index - radius + kernel_size - extent)))
      as start eqn:Hstart.
    assert (Hs : index - kernel_size < start <= index /\ 0 <= start) by lia.
    clear Hstart.
    exists (index - start).
    repeat split; try discriminate; try nia; try lia.
Qed.

(** The non-causal window: where it is centered, and when it holds
    [kernel_size] samples. *)
Lemma noncausal_window position axis_extent kernel_size dilation :
  0 <= position < axis_extent -> 1 <= kernel_size -> 1 <= dilation ->
  let '(s, e) := window position axis_extent kernel_size dilation false in
  let radius := kernel_size / 2 in
  (kernel_size * dilation <= axis_extent ->
   s + (kernel_size - 1) * dilation < e)
  /\ (kernel_size <= axis_extent -> dilation = 1 -> e = s + kernel_size)
  /\ (radius * dilation <= position < axis_extent - radius * dilation ->
      s = position - radius * dilation).
Proof.
  intros Hp Hk Hd. unfold window, get_window_end.
  rewrite window_start_lane.
  destruct (lane_facts position axis_extent dilation Hd Hp)
    as (Hpos & Hoff & Hidx & Hlast & Hreach).
  set (offset := lane_offset position dilation) in *.
  set (index := lane_index position dilation) in *.
  set (extent := lane_extent axis_extent dilation offset) in *.
  pose proof (radius_facts kernel_size Hk) as Hr.
  cbv zeta. set (radius := kernel_size / 2) in *.
  remember (Z.max 0 (index - radius
                     - Z.max 0 (index - radius + kernel_size - extent)))
    as start eqn:Hstart.
  split; [|split].
  - intros Hfit.
    assert (kernel_size <= extent).
    { assert (kernel_size - 1 < extent); [|lia]. nia. }
    assert (start + kernel_size <= extent) by lia.
    apply Z.min_glb_lt; nia.
  - intros Hle ->.
    assert (kernel_size <= extent) by lia.
    assert (start + kernel_size <= extent) by lia.
    rewrite Z.min_r by nia. ring.
  - intros Hmid.
    assert (radius <= index).
    { assert (radius < index + 1); [|lia]. nia. }
    assert (index + radius <= extent - 1).
    { assert (index + radius < extent); [|lia]. nia. }
    assert (start = index - radius) by lia. nia.
Qed.

Lemma ceil_exact w n step :
  1 <= step -> (n - 1) * step < w <= n * step -> (w + step - 1) / step = n.
Proof.
  intros Hstep Hw. symmetry. apply Z.div_unique with (w + step - 1 - step * n).
  - left. lia.
  - lia.
Qed.

End ResolverFacts.

(** ** Facts about the kernel *)

Module KernelFacts.
Import Kernel LoopFacts.

(** *** Exact values of wrapped arithmetic *)

#[local] Instance eqm_equivalence N : Equivalence (eqm N) := eqm_setoid N.
#[local] Instance add_eqm N : Proper (eqm N ==> eqm N ==> eqm N) Z.add :=
  Zplus_eqm N.
#[local] Instance sub_eqm N : Proper (eqm N ==> eqm N ==> eqm N) Z.sub :=
  Zminus_eqm N.
#[local] Instance mul_eqm N : Proper (eqm N ==> eqm N ==> eqm N) Z.mul :=
  Zmult_eqm N.

Lemma i32_eqm x : eqm (2 ^ 32) (i32 x) x.
Proof. apply (wrap_mod 32). lia. Qed.

Lemma i64_eqm x : eqm (2 ^ 64) (i64 x) x.
Proof. apply (wrap_mod 64). lia. Qed.

Lemma i32_exact x y : eqm (2 ^ 32) x y -> in32 y -> i32 x = y.
Proof.
  intros Heq Hy. rewrite <- (i32_small y Hy). now apply wrap_congr.
Qed.

Lemma i64_exact x y : eqm (2 ^ 64) x y -> in64 y -> i64 x = y.
Proof.
  intros Heq Hy. rewrite <- (i64_small y Hy). now apply wrap_congr.
Qed.

Lemma eqm_of_eq N x y : x = y -> eqm N x y.
Proof. now intros ->. Qed.

(** A wrapped expression has the value of the expression without its
    inner wraps, when that value fits. *)
Ltac exact32 :=
  unfold add32, sub32, mul32;
  apply i32_exact; [rewrite ?i32_eqm; apply eqm_of_eq|].
Ltac exact64 :=
  unfold add64, mul64;
  apply i64_exact; [rewrite ?i64_eqm; apply eqm_of_eq|].

Lemma radix_step x n y m :
  0 <= x < n -> 0 <= y < m -> 0 <= x * m + y < n * m.
Proof. intros Hx Hy. nia. Qed.

Lemma radix_unique x y x' y' m :
  0 <= y < m -> 0 <= y' < m -> x * m + y = x' * m + y' -> x = x' /\ y = y'.
Proof. intros Hy Hy' Heq. assert (x = x') by nia. subst. lia. Qed.

Section Shape.

Variable a : launch_args.
Hypothesis Hshape : valid_shape a.

Lemma flatten_range c :
  in_space a c -> 0 <= flatten a c < coordinate_count a.
Proof.
  destruct Hshape. intros (Hb & Hh & Hk & Hi & Hj).
  unfold flatten, coordinate_count.
  repeat apply radix_step; assumption.
Qed.

Lemma flatten_injective c c' :
  in_space a c -> in_space a c' -> flatten a c = flatten a c' -> c = c'.
Proof.
  intros (Hb & Hh & Hk & Hi & Hj) (Hb' & Hh' & Hk' & Hi' & Hj') Heq.
  unfold flatten in Heq.
  apply radix_unique in Heq as [Heq ?]; [|assumption..].
  apply radix_unique in Heq as [Heq ?]; [|assumption..].
  apply radix_unique in Heq as [Heq ?]; [|assumption..].
  apply radix_unique in Heq as [Heq ?]; [|assumption..].
  destruct c, c'; simpl in *; congruence.
Qed.

Lemma dense_offset_range c d :
  in_space a c -> 0 <= d < dim a ->
  0 <= dense_offset a c d < coordinate_count a * dim a.
Proof.
  intros Hc Hd. unfold dense_offset.
  apply radix_step; [now apply flatten_range | assumption].
Qed.

Lemma problem_size_exact : problem_size a = coordinate_count a.
Proof.
  destruct Hshape. unfold problem_size. exact32; [reflexivity|].
  unfold in32, coordinate_count in *. unfold min32. nia.
Qed.

(** Division and remainder of a flat index, as the kernel computes
    them. *)
Lemma div32_exact x m : 0 <= x <= max32 -> 0 < m -> div32 x m = x / m.
Proof.
  intros Hx Hm. unfold div32. rewrite Z.quot_div_nonneg by lia.
  apply i32_small. unfold in32, min32.
  pose proof (Z.div_pos x m ltac:(lia) Hm).
  pose proof (Z.div_le_upper_bound x m x Hm ltac:(nia)). lia.
Qed.

Lemma rem32_exact x m :
  0 <= x <= max32 -> 0 < m -> sub32 x (mul32 (x / m) m) = x mod m.
Proof.
  intros Hx Hm. exact32; [rewrite Z.mod_eq by lia; ring|].
  pose proof (Z.mod_pos_bound x m Hm).
  pose proof (Z.mod_le x m ltac:(lia) Hm).
  unfold in32, min32. lia.
Qed.

Lemma coordinates_exact x :
  0 <= x < coordinate_count a ->
  coordinates a x =
  Coordinate (x / width a / height a / depth a / heads a)
             (x / width a / height a / depth a mod heads a)
             (x / width a / height a mod depth a)
             (x / width a mod height a)
             (x mod width a).
Proof.
  destruct Hshape. intros Hx. unfold coordinates.
  assert (H1 : 0 <= x / width a <= x).
  { split; [apply Z.div_pos; lia | apply Z.div_le_upper_bound; nia]. }
  assert (H2 : 0 <= x / width a / height a <= x / width a).
  { split; [apply Z.div_pos; lia | apply Z.div_le_upper_bound; nia]. }
  assert (H3 : 0 <= x / width a / height a / depth a <= x / width a / height a).
  { split; [apply Z.div_pos; lia | apply Z.div_le_upper_bound; nia]. }
  rewrite (div32_exact x) by lia. rewrite rem32_exact by lia.
  rewrite (div32_exact (x / width a)) by lia. rewrite rem32_exact by lia.
  rewrite (div32_exact (x / width a / height a)) by lia.
  rewrite rem32_exact by lia.
  rewrite (div32_exact (x / width a / height a / depth a)) by lia.
  rewrite rem32_exact by lia.
  reflexivity.
Qed.

Lemma coordinates_in_space x :
  0 <= x < coordinate_count a ->
  in_space a (coordinates a x) /\ flatten a (coordinates a x) = x.
Proof.
  intros Hx. rewrite (coordinates_exact x Hx).
  destruct Hshape. unfold in_space, flatten, coordinate_count in *. simpl.
  pose proof (Z.div_mod x (width a) ltac:(lia)) as E1.
  pose proof (Z.mod_pos_bound x (width a) ltac:(lia)) as B1.
  set (x1 := x / width a) in *.
  pose proof (Z.div_mod x1 (height a) ltac:(lia)) as E2.
  pose proof (Z.mod_pos_bound x1 (height a) ltac:(lia)) as B2.
  set (x2 := x1 / height a) in *.
  pose proof (Z.div_mod x2 (depth a) ltac:(lia)) as E3.
  pose proof (Z.mod_pos_bound x2 (depth a) ltac:(lia)) as B3.
  set (x3 := x2 / depth a) in *.
  pose proof (Z.div_mod x3 (heads a) ltac:(lia)) as E4.
  pose proof (Z.mod_pos_bound x3 (heads a) ltac:(lia)) as B4.
  set (x4 := x3 / heads a) in *.
  assert (0 <= x1) by (apply Z.div_pos; lia).
  assert (0 <= x2) by (apply Z.div_pos; lia).
  assert (0 <= x3) by (apply Z.div_pos; lia).
  assert (0 <= x4) by (apply Z.div_pos; lia).
  assert (x1 < batch_size a * heads a * depth a * height a).
  { apply Z.div_lt_upper_bound; lia. }
  assert (x2 < batch_size a * heads a * depth a).
  { apply Z.div_lt_upper_bound; lia. }
  assert (x3 < batch_size a * heads a).
  { apply Z.div_lt_upper_bound; lia. }
  assert (x4 < batch_size a).
  { apply Z.div_lt_upper_bound; lia. }
  repeat split; lia.
Qed.

Lemma coordinates_flatten c :
  in_space a c -> coordinates a (flatten a c) = c.
Proof.
  intros Hc.
  destruct (coordinates_in_space (flatten a c) (flatten_range c Hc))
    as [Hin Heq].
  now apply flatten_injective.
Qed.

(** *** The offsets that the kernel computes *)

Lemma values_strides_exact :
  values_stride_4 a = dim a
  /\ values_stride_3 a = width a * dim a
  /\ values_stride_2 a = height a * (width a * dim a)
  /\ values_stride_1 a = depth a * (height a * (width a * dim a))
  /\ values_stride_0 a =
     heads a * (depth a * (height a * (width a * dim a))).
Proof.
  destruct Hshape. unfold coordinate_count in *.
  set (s4 := dim a) in *.
  assert (B3 : s4 <= width a * s4) by nia.
  set (s3 := width a * s4) in *.
  assert (B2 : s3 <= height a * s3) by nia.
  set (s2 := height a * s3) in *.
  assert (B1 : s2 <= depth a * s2) by nia.
  set (s1 := depth a * s2) in *.
  assert (B0 : s1 <= heads a * s1) by nia.
  set (s0 := heads a * s1) in *.
  assert (Btop : s0 <= batch_size a * s0) by nia.
  assert (Etop : batch_size a * s0
                 = batch_size a * heads a * depth a * height a * width a * s4).
  { unfold s0, s1, s2, s3. ring. }
  assert (E4 : values_stride_4 a = s4).
  { unfold values_stride_4. apply i64_small. unfold in64, min64. lia. }
  assert (E3 : values_stride_3 a = s3).
  { unfold values_stride_3. rewrite E4. unfold mul64. apply i64_small.
    unfold in64, min64. fold s3. lia. }
  assert (E2 : values_stride_2 a = s2).
  { unfold values_stride_2. rewrite E3. unfold mul64. apply i64_small.
    unfold in64, min64. fold s2. lia. }
  assert (E1 : values_stride_1 a = s1).
  { unfold values_stride_1. rewrite E2. unfold mul64. apply i64_small.
    unfold in64, min64. fold s1. lia. }
  assert (E0 : values_stride_0 a = s0).
  { unfold values_stride_0. rewrite E1. unfold mul64. apply i64_small.
    unfold in64, min64. fold s0. lia. }
  auto.
Qed.

Lemma dense_offset_in64 c d :
  in_space a c -> 0 <= d < dim a -> in64 (dense_offset a c d).
Proof.
  intros Hc Hd. pose proof (dense_offset_range c d Hc Hd).
  destruct Hshape. unfold in64, min64. lia.
Qed.

Lemma linearIndex_exact c d :
  in_space a c -> 0 <= d < dim a ->
  linearIndex a c d = dense_offset a c d.
Proof.
  intros Hc Hd. unfold linearIndex.
  destruct values_strides_exact as (-> & -> & -> & -> & ->).
  exact64; [|now apply dense_offset_in64].
  unfold dense_offset, flatten. ring.
Qed.

Lemma valuesIndex_exact c d xk xi xj :
  in_space a c -> 0 <= d < dim a ->
  0 <= xk < depth a -> 0 <= xi < height a -> 0 <= xj < width a ->
  valuesIndex a c d xk xi xj
  = dense_offset a (Coordinate (cb c) (ch c) xk xi xj) d.
Proof.
  intros Hc Hd Hk Hi Hj. unfold valuesIndex, valuesOffset.
  destruct values_strides_exact as (-> & -> & -> & -> & ->).
  exact64.
  - unfold dense_offset, flatten. simpl. ring.
  - apply dense_offset_in64; [|assumption].
    unfold in_space in *. simpl. tauto.
Qed.

Lemma weightsOffset_exact c :
  in64 (strided_offset a 1 c 0) ->
  weightsOffset a c = strided_offset a 1 c 0.
Proof.
  intros Hin. unfold weightsOffset. exact64; [|assumption].
  unfold strided_offset. ring.
Qed.

(** The weight of the sample [(t0, t1, t2)] of the window, counted in
    steps of the dilation from the window start. *)
Lemma weightsIndex_exact c nk ni nj t0 t1 t2 :
  0 <= strided_offset a 1 c 0 ->
  strided_offset a 1 c 0 + kernel_volume a <= max64 ->
  0 <= nk -> 0 <= ni -> 0 <= nj ->
  0 <= t0 < kernel_size_0 a -> 0 <= t1 < kernel_size_1 a ->
  0 <= t2 < kernel_size_2 a ->
  nk + t0 * dilation_0 a <= max32 ->
  ni + t1 * dilation_1 a <= max32 ->
  nj + t2 * dilation_2 a <= max32 ->
  let e := t0 * kernel_size_1 a * kernel_size_2 a
           + t1 * kernel_size_2 a + t2 in
  weightsIndex a c nk ni nj (nk + t0 * dilation_0 a)
    (ni + t1 * dilation_1 a) (nj + t2 * dilation_2 a)
  = strided_offset a 1 c e
  /\ 0 <= e < kernel_volume a.
Proof.
  intros Hoff Hfit Hnk Hni Hnj Ht0 Ht1 Ht2 Hx0 Hx1 Hx2 e.
  destruct Hshape. unfold kernel_volume in *.
  assert (He : 0 <= e < kernel_size_0 a * kernel_size_1 a * kernel_size_2 a).
  { unfold e.
    pose proof (radix_step _ _ _ _ Ht0 Ht1) as H01.
    pose proof (radix_step _ _ _ _ H01 Ht2) as H012. lia. }
  split; [|exact He].
  assert (Hstep : forall n t dil, 0 <= n -> 0 <= t -> 1 <= dil ->
            n + t * dil <= max32 ->
            div32 (sub32 (n + t * dil) n) dil = t).
  { intros n t dil Hn Ht Hdil Hmax.
    assert (Hsub : sub32 (n + t * dil) n = t * dil).
    { exact32; [ring|]. unfold in32, min32. nia. }
    rewrite Hsub. unfold div32.
    rewrite Z.quot_div_nonneg, Z.div_mul by nia.
    apply i32_small. unfold in32, min32. nia. }
  unfold weightsIndex. rewrite !Hstep by lia.
  assert (H12 : mul32 (kernel_size_1 a) (kernel_size_2 a)
                = kernel_size_1 a * kernel_size_2 a).
  { unfold mul32. apply i32_small. unfold in32, min32. nia. }
  rewrite H12.
  assert (H0 : mul32 t0 (kernel_size_1 a * kernel_size_2 a)
               = t0 * (kernel_size_1 a * kernel_size_2 a)).
  { unfold mul32. apply i32_small. unfold in32, min32. nia. }
  assert (H1 : mul32 t1 (kernel_size_2 a) = t1 * kernel_size_2 a).
  { unfold mul32. apply i32_small. unfold in32, min32. nia. }
  rewrite H0, H1. unfold weightsOffset. exact64.
  - unfold strided_offset, e. ring.
  - unfold in64, min64. unfold strided_offset in *. lia.
Qed.

End Shape.

(** *** Buffers *)

Section Buffers.

Context {scalar_t : Type}.
Variable zero : scalar_t.

Lemma load_in_range (buf : list scalar_t) index :
  0 <= index < Z.of_nat (length buf) ->
  load buf index = Ok (at_offset zero buf index).
Proof.
  intros Hin. unfold load, at_offset.
  destruct (Z.ltb_spec index 0) as [|_]; [lia|].
  rewrite nth_lookup.
  destruct (buf !! Z.to_nat index) as [v|] eqn:Hlookup; [reflexivity|].
  apply lookup_ge_None in Hlookup. lia.
Qed.

Lemma store_in_range (buf : list scalar_t) index v :
  0 <= index < Z.of_nat (length buf) ->
  store buf index v = Ok (<[Z.to_nat index := v]> buf).
Proof.
  intros Hin. unfold store.
  destruct (Z.leb_spec 0 index); [|lia].
  destruct (Z.ltb_spec index (Z.of_nat (length buf))); [|lia].
  reflexivity.
Qed.

Lemma fold_result_pure {A} (f : A -> Z -> A) l acc :
  fold_result (fun x acc => Ok (f acc x)) l acc = Ok (fold_left f l acc).
Proof.
  revert acc. induction l as [|x l IH]; intros acc; simpl; [reflexivity|].
  apply IH.
Qed.

Lemma fold_left_bind {A B C} (f : A -> C -> A) (g : B -> list C) l acc :
  fold_left f (l ≫= g) acc
  = fold_left (fun acc x => fold_left f (g x) acc) l acc.
Proof.
  revert acc. induction l as [|x l IH]; intros acc; [reflexivity|].
  cbn [mbind list_bind]. rewrite fold_left_app.
  cbn [fold_left]. apply IH.
Qed.

End Buffers.

(** *** Windows in range *)

Lemma in_range_strided n p :
  0 <= p < n -> In p (strided (Z.to_nat n) 0 1).
Proof. intros Hp. apply in_strided. exists p. lia. Qed.

Lemma positions_in_window w dilation kernel_size x :
  1 <= dilation -> 0 <= kernel_size ->
  w_end w - w_start w <= kernel_size * dilation ->
  In x (window_positions w dilation) ->
  exists t, 0 <= t < kernel_size /\ x = w_start w + t * dilation
            /\ x < w_end w.
Proof.
  intros Hd Hk Hspan Hin. unfold window_positions in Hin.
  apply in_strided in Hin as (t & Ht & ->).
  pose proof (sample_count_bound _ _ _ _ Hd Hk Hspan) as Hcount.
  exists t. repeat split; try lia.
  destruct (Z.le_gt_cases (w_end w) (w_start w)) as [Hempty | Hlt].
  - rewrite sample_count_empty in Ht by lia. lia.
  - rewrite sample_count_ceil in Ht by lia.
    pose proof (Z.mul_div_le (w_end w - w_start w + dilation - 1) dilation
                  ltac:(lia)).
    nia.
Qed.

Section Windows.

Variable get_window_start : Z -> Z -> Z -> Z -> Z -> bool -> Z.
Variable get_window_end : Z -> Z -> Z -> Z -> Z -> Z -> bool -> Z.

Lemma axis_in_range_spec extent kernel_size radius dilation causal p :
  axis_in_range get_window_start get_window_end extent kernel_size radius
    dilation causal = true ->
  0 <= p < extent ->
  let s := get_window_start p extent kernel_size radius dilation causal in
  let e := get_window_end p s extent kernel_size radius dilation causal in
  0 <= s /\ e <= extent /\ e - s <= kernel_size * dilation.
Proof.
  intros Hall Hp. unfold axis_in_range in Hall.
  rewrite forallb_forall in Hall.
  specialize (Hall p (in_range_strided _ _ Hp)). cbv zeta in *.
  rewrite !andb_true_iff, !Z.leb_le in Hall. lia.
Qed.

Lemma axis_in_range_intro extent kernel_size radius dilation causal :
  (forall p, 0 <= p < extent ->
     let s := get_window_start p extent kernel_size radius dilation causal in
     let e := get_window_end p s extent kernel_size radius dilation causal in
     0 <= s /\ e <= extent /\ e - s <= kernel_size * dilation) ->
  axis_in_range get_window_start get_window_end extent kernel_size radius
    dilation causal = true.
Proof.
  intros Hall. unfold axis_in_range. apply forallb_forall. intros p Hin.
  apply in_strided in Hin as (t & Ht & ->).
  specialize (Hall (0 + t * 1) ltac:(lia)). cbv zeta in *.
  rewrite !andb_true_iff, !Z.leb_le. lia.
Qed.

Variable a : launch_args.
Hypothesis Hwindows :
  windows_in_range get_window_start get_window_end a = true.

Lemma windows_of_coordinate c :
  in_space a c ->
  let w0 := window_0 get_window_start get_window_end a c in
  let w1 := window_1 get_window_start get_window_end a c in
  let w2 := window_2 get_window_start get_window_end a c in
  (0 <= w_start w0 /\ w_end w0 <= depth a
   /\ w_end w0 - w_start w0 <= kernel_size_0 a * dilation_0 a)
  /\ (0 <= w_start w1 /\ w_end w1 <= height a
      /\ w_end w1 - w_start w1 <= kernel_size_1 a * dilation_1 a)
  /\ (0 <= w_start w2 /\ w_end w2 <= width a
      /\ w_end w2 - w_start w2 <= kernel_size_2 a * dilation_2 a).
Proof.
  intros (_ & _ & Hk & Hi & Hj).
  unfold windows_in_range in Hwindows.
  rewrite !andb_true_iff in Hwindows. destruct Hwindows as [[H0 H1] H2].
  repeat split;
    (eapply (axis_in_range_spec _ _ _ _ _ _ H0 Hk)
     || eapply (axis_in_range_spec _ _ _ _ _ _ H1 Hi)
     || eapply (axis_in_range_spec _ _ _ _ _ _ H2 Hj)).
Qed.

End Windows.

(** *** One output element *)

Section Run.

Context {scalar_t : Type}.
Variable zero : scalar_t.
Variable add mul : scalar_t -> scalar_t -> scalar_t.
Variable get_window_start : Z -> Z -> Z -> Z -> Z -> bool -> Z.
Variable get_window_end : Z -> Z -> Z -> Z -> Z -> Z -> bool -> Z.
Variable a : launch_args.
Variables weights values : list scalar_t.

Hypothesis Hshape : valid_shape a.
Hypothesis Hwindows :
  windows_in_range get_window_start get_window_end a = true.
Hypothesis Hweights : weights_in_range a weights = true.
Hypothesis Hvalues :
  Z.of_nat (length values) = coordinate_count a * dim a.

Abbreviation window_0 := (Kernel.window_0 get_window_start get_window_end a).
Abbreviation window_1 := (Kernel.window_1 get_window_start get_window_end a).
Abbreviation window_2 := (Kernel.window_2 get_window_start get_window_end a).

Lemma weights_of_coordinate c :
  in_space a c ->
  0 <= strided_offset a 1 c 0
  /\ strided_offset a 1 c 0 + kernel_volume a <= Z.of_nat (length weights)
  /\ Z.of_nat (length weights) <= max64.
Proof.
  intros Hc. unfold weights_in_range in Hweights.
  rewrite andb_true_iff, Z.leb_le, forallb_forall in Hweights.
  destruct Hweights as [Hlen Hall].
  specialize (Hall (flatten a c)
                (in_range_strided _ _ (flatten_range a Hshape c Hc))).
  cbv zeta in Hall. rewrite (coordinates_flatten a Hshape c Hc) in Hall.
  rewrite andb_true_iff, !Z.leb_le in Hall. lia.
Qed.

(** Every access of the window loops: the offsets are those of the
    tensor views, and they lie in the buffers. *)
Lemma window_sample_exact c d xk xi xj :
  in_space a c -> 0 <= d < dim a ->
  In xk (window_positions (window_0 c) (dilation_0 a)) ->
  In xi (window_positions (window_1 c) (dilation_1 a)) ->
  In xj (window_positions (window_2 c) (dilation_2 a)) ->
  let e := enum a (window_0 c) (window_1 c) (window_2 c) xk xi xj in
  let x := Coordinate (cb c) (ch c) xk xi xj in
  weightsIndex a c (w_start (window_0 c)) (w_start (window_1 c))
    (w_start (window_2 c)) xk xi xj = strided_offset a 1 c e
  /\ 0 <= e < kernel_volume a
  /\ 0 <= strided_offset a 1 c e < Z.of_nat (length weights)
  /\ valuesIndex a c d xk xi xj = dense_offset a x d
  /\ in_space a x
  /\ 0 <= dense_offset a x d < Z.of_nat (length values).
Proof.
  intros Hc Hd Hxk Hxi Hxj.
  destruct (windows_of_coordinate _ _ a Hwindows c Hc)
    as ((Hs0 & He0 & Hw0) & (Hs1 & He1 & Hw1) & (Hs2 & He2 & Hw2)).
  destruct (weights_of_coordinate c Hc) as (Hoff & Hfit & Hlen).
  pose proof Hshape as Hshape'. destruct Hshape'.
  apply positions_in_window with (kernel_size := kernel_size_0 a) in Hxk
    as (t0 & Ht0 & Ek & Hk); [|lia..].
  apply positions_in_window with (kernel_size := kernel_size_1 a) in Hxi
    as (t1 & Ht1 & Ei & Hi); [|lia..].
  apply positions_in_window with (kernel_size := kernel_size_2 a) in Hxj
    as (t2 & Ht2 & Ej & Hj); [|lia..].
  assert (Ee : enum a (window_0 c) (window_1 c) (window_2 c) xk xi xj
               = t0 * kernel_size_1 a * kernel_size_2 a
                 + t1 * kernel_size_2 a + t2).
  { unfold enum. rewrite Ek, Ei, Ej.
    replace (w_start (window_0 c) + t0 * dilation_0 a - w_start (window_0 c))
      with (t0 * dilation_0 a) by ring.
    replace (w_start (window_1 c) + t1 * dilation_1 a - w_start (window_1 c))
      with (t1 * dilation_1 a) by ring.
    replace (w_start (window_2 c) + t2 * dilation_2 a - w_start (window_2 c))
      with (t2 * dilation_2 a) by ring.
    rewrite !Z.div_mul by lia. reflexivity. }
  cbv zeta. rewrite Ee.
  destruct (weightsIndex_exact a Hshape c (w_start (window_0 c))
              (w_start (window_1 c)) (w_start (window_2 c)) t0 t1 t2)
    as [Hidx He]; try lia.
  cbv zeta in Hidx, He. rewrite <- Ek, <- Ei, <- Ej in Hidx.
  assert (Hx : in_space a (Coordinate (cb c) (ch c) xk xi xj)).
  { unfold in_space in *. simpl. nia. }
  pose proof (dense_offset_range a Hshape _ d Hx Hd).
  refine (conj Hidx (conj He (conj _ (conj _ (conj Hx _))))).
  - unfold strided_offset in *. lia.
  - apply valuesIndex_exact; try assumption; unfold in_space in Hx;
      simpl in Hx; lia.
  - lia.
Qed.

(** *** The stores *)

Lemma written_none lo f (out : list scalar_t) :
  written_between lo lo f out out.
Proof.
  split; [reflexivity|]. intros n Hn.
  destruct (Z.leb_spec lo n), (Z.ltb_spec n lo); simpl; try reflexivity.
  lia.
Qed.

Lemma written_trans lo mid hi f (out0 out1 out2 : list scalar_t) :
  lo <= mid <= hi ->
  written_between lo mid f out0 out1 ->
  written_between mid hi f out1 out2 ->
  written_between lo hi f out0 out2.
Proof.
  intros Hmid [Hlen1 H1] [Hlen2 H2]. split; [congruence|].
  intros n Hn. rewrite H2 by lia. rewrite H1 by lia.
  destruct (Z.leb_spec lo n), (Z.ltb_spec n hi), (Z.leb_spec mid n),
    (Z.ltb_spec n mid); simpl; try reflexivity; lia.
Qed.

Lemma written_store index f (out : list scalar_t) :
  0 <= index < Z.of_nat (length out) ->
  written_between index (index + 1) f out
    (<[Z.to_nat index := f index]> out).
Proof.
  intros Hin. split; [apply length_insert|]. intros n Hn.
  destruct (Z.eq_dec n index) as [-> | Hne].
  - rewrite list_lookup_insert_eq by lia.
    destruct (Z.leb_spec index index), (Z.ltb_spec index (index + 1));
      simpl; try reflexivity; lia.
  - rewrite list_lookup_insert_ne by lia.
    destruct (Z.leb_spec index n), (Z.ltb_spec n (index + 1));
      simpl; try reflexivity; lia.
Qed.

(** A loop whose iteration [t] overwrites the block [t] of [m]
    elements overwrites the blocks of its range. *)
Lemma fold_blocks (body : Z -> list scalar_t -> result (list scalar_t))
    f offset m size n :
  0 <= m ->
  forall lo,
  (forall t out, lo <= t < lo + Z.of_nat n -> length out = size ->
     exists out', body t out = Ok out'
       /\ written_between (offset + t * m) (offset + t * m + m) f out out')
  -> forall out, length out = size ->
     exists out', fold_result body (strided n lo 1) out = Ok out'
       /\ written_between (offset + lo * m)
            (offset + (lo + Z.of_nat n) * m) f out out'.
Proof.
  intros Hm. induction n as [|n IH]; intros lo Hbody out Hlen.
  - exists out. split; [reflexivity|].
    replace (offset + (lo + Z.of_nat 0) * m) with (offset + lo * m) by lia.
    apply written_none.
  - destruct (Hbody lo out ltac:(lia) Hlen) as (out1 & Hrun1 & Hw1).
    destruct (IH (lo + 1)) with (out := out1) as (out2 & Hrun2 & Hw2).
    + intros t out' Ht. apply Hbody. lia.
    + destruct Hw1 as [Hlen1 _]. congruence.
    + exists out2. split.
      * cbn [strided fold_result]. rewrite Hrun1. exact Hrun2.
      * apply written_trans with (mid := offset + lo * m + m) (out1 := out1).
        -- nia.
        -- exact Hw1.
        -- replace (offset + lo * m + m) with (offset + (lo + 1) * m)
             by ring.
           replace (offset + (lo + Z.of_nat (S n)) * m)
             with (offset + (lo + 1 + Z.of_nat n) * m)
             by (rewrite Nat2Z.inj_succ; ring).
           exact Hw2.
Qed.

Abbreviation element :=
  (Kernel.element zero add mul get_window_start get_window_end a weights
     values).

Lemma element_of_coordinate c d :
  in_space a c -> 0 <= d < dim a ->
  element (dense_offset a c d)
  = ordered_sum zero add mul get_window_start get_window_end a weights
      values c d.
Proof.
  intros Hc Hd. unfold Kernel.element, dense_offset.
  rewrite Z.div_add_l, Z.div_small, Z.add_0_r by lia.
  rewrite Z.add_comm, Z.mod_add, Z.mod_small by lia.
  now rewrite (coordinates_flatten a Hshape c Hc).
Qed.

(** *** The loops, with enough fuel *)

Variable fuel : nat.
Hypothesis Hfuel : (fuel_needed a <= fuel)%nat.

Lemma window_loop_strided {A} (body : Z -> A -> result A) w extent
    kernel_size dilation acc :
  1 <= dilation -> 1 <= kernel_size ->
  extent + dilation <= max32 ->
  Z.of_nat (Z.to_nat kernel_size) <= Z.of_nat fuel ->
  0 <= w_start w -> w_end w <= extent ->
  w_end w - w_start w <= kernel_size * dilation ->
  for_loop fuel (w_start w) (w_end w) dilation body acc
  = fold_result body (window_positions w dilation) acc.
Proof.
  intros Hd Hk Hfit Hf Hs He Hspan. unfold window_positions.
  apply for_loop_strided; try lia.
  - unfold min32. lia.
  - pose proof (sample_count_bound (w_start w) (w_end w) dilation
                  kernel_size Hd ltac:(lia) Hspan). lia.
Qed.

Lemma fuel_covers :
  Z.of_nat (Z.to_nat (coordinate_count a)) <= Z.of_nat fuel
  /\ Z.of_nat (Z.to_nat (dim a)) <= Z.of_nat fuel
  /\ Z.of_nat (Z.to_nat (kernel_size_0 a)) <= Z.of_nat fuel
  /\ Z.of_nat (Z.to_nat (kernel_size_1 a)) <= Z.of_nat fuel
  /\ Z.of_nat (Z.to_nat (kernel_size_2 a)) <= Z.of_nat fuel.
Proof. unfold fuel_needed in Hfuel. lia. Qed.

(** The accumulator of an output element is the ordered sum of the
    products of its window. *)
Lemma accumulate_exact c d :
  in_space a c -> 0 <= d < dim a ->
  accumulate zero add mul get_window_start get_window_end a fuel weights
    values c d
  = Ok (ordered_sum zero add mul get_window_start get_window_end a weights
          values c d).
Proof.
  intros Hc Hd.
  destruct (windows_of_coordinate _ _ a Hwindows c Hc)
    as ((Hs0 & He0 & Hw0) & (Hs1 & He1 & Hw1) & (Hs2 & He2 & Hw2)).
  destruct fuel_covers as (_ & _ & Hf0 & Hf1 & Hf2).
  pose proof Hshape as Hshape'. destruct Hshape'.
  pose proof (fun xk xi xj => window_sample_exact c d xk xi xj Hc Hd)
    as Hsample.
  unfold accumulate, ordered_sum, row_major.
  destruct (window_0 c) as [nk ek] eqn:E0.
  destruct (window_1 c) as [ni ei] eqn:E1.
  destruct (window_2 c) as [nj ej] eqn:E2.
  cbn [w_start w_end] in *.
  rewrite (window_loop_strided _ (AxisWindow nk ek) (depth a)
             (kernel_size_0 a)) by (cbn [w_start w_end]; lia).
  rewrite fold_left_bind.
  rewrite <- (fold_result_pure
    (fun updt xk =>
       fold_left (fun updt x => add updt
           (product zero mul get_window_start get_window_end a weights
              values c d x))
         (window_positions (AxisWindow ni ei) (dilation_1 a) ≫= fun xi =>
          window_positions (AxisWindow nj ej) (dilation_2 a) ≫= fun xj =>
          [(xk, xi, xj)]) updt)).
  apply fold_result_ext. intros xk updt0 Hxk.
  rewrite (window_loop_strided _ (AxisWindow ni ei) (height a)
             (kernel_size_1 a)) by (cbn [w_start w_end]; lia).
  rewrite fold_left_bind.
  rewrite <- (fold_result_pure
    (fun updt xi =>
       fold_left (fun updt x => add updt
           (product zero mul get_window_start get_window_end a weights
              values c d x))
         (window_positions (AxisWindow nj ej) (dilation_2 a) ≫= fun xj =>
          [(xk, xi, xj)]) updt)).
  apply fold_result_ext. intros xi updt1 Hxi.
  rewrite (window_loop_strided _ (AxisWindow nj ej) (width a)
             (kernel_size_2 a)) by (cbn [w_start w_end]; lia).
  rewrite fold_left_bind.
  rewrite <- (fold_result_pure
    (fun updt xj =>
       fold_left (fun updt x => add updt
           (product zero mul get_window_start get_window_end a weights
              values c d x)) [(xk, xi, xj)] updt)).
  apply fold_result_ext. intros xj updt2 Hxj.
  destruct (Hsample xk xi xj Hxk Hxi Hxj)
    as (Hw & _ & Hwr & Hv & _ & Hvr).
  unfold product. rewrite E0, E1, E2. cbn [w_start w_end fold_left].
  rewrite <- Hw in Hwr. rewrite <- Hv in Hvr.
  rewrite (load_in_range zero weights _ Hwr).
  rewrite (load_in_range zero values _ Hvr).
  reflexivity.
Qed.

(** The channel loop of a coordinate overwrites its output vector, in
    a buffer that holds the tensor. *)
Lemma channels_within c (output : list scalar_t) :
  in_space a c ->
  coordinate_count a * dim a <= Z.of_nat (length output) ->
  exists output',
    channels zero add mul get_window_start get_window_end a fuel weights
      values c output = Ok output'
    /\ written_between (flatten a c * dim a) (flatten a c * dim a + dim a)
         element output output'.
Proof.
  intros Hc Hlen. pose proof Hshape as Hshape'. destruct Hshape'.
  destruct fuel_covers as (_ & Hfd & _).
  unfold channels.
  rewrite counting_loop by (unfold min32; lia).
  rewrite Z.sub_0_r.
  destruct (fold_blocks
    (fun d output =>
       updt ← accumulate zero add mul get_window_start get_window_end a
                fuel weights values c d;
       store output (linearIndex a c d) updt)
    element (flatten a c * dim a) 1 (length output) (Z.to_nat (dim a))
    ltac:(lia) 0) with (out := output) as (output' & Hrun & Hw).
  - intros d out Hd Hout.
    rewrite accumulate_exact by (assumption || lia).
    pose proof (dense_offset_range a Hshape c d Hc ltac:(lia)) as Hrange.
    cbn [mbind result_bind].
    rewrite (linearIndex_exact a Hshape c d Hc) by lia.
    rewrite store_in_range by lia.
    eexists. split; [reflexivity|].
    rewrite <- element_of_coordinate by (assumption || lia).
    replace (flatten a c * dim a + d * 1) with (dense_offset a c d)
      by (unfold dense_offset; ring).
    apply written_store. lia.
  - reflexivity.
  - exists output'. split; [exact Hrun|].
    replace (flatten a c * dim a + 0 * 1) with (flatten a c * dim a)
      in Hw by ring.
    replace (flatten a c * dim a + (0 + Z.of_nat (Z.to_nat (dim a))) * 1)
      with (flatten a c * dim a + dim a) in Hw by lia.
    exact Hw.
Qed.

(** A chunk of the flat range overwrites the output vectors of its
    coordinates, in a buffer that holds the tensor. *)
Lemma chunk_within lo hi (output : list scalar_t) :
  0 <= lo <= hi -> hi <= coordinate_count a ->
  coordinate_count a * dim a <= Z.of_nat (length output) ->
  exists output',
    chunk zero add mul get_window_start get_window_end a fuel weights
      values lo hi output = Ok output'
    /\ written_between (lo * dim a) (hi * dim a) element output output'.
Proof.
  intros Hlo Hhi Hlen. pose proof Hshape as Hshape'. destruct Hshape'.
  destruct fuel_covers as (Hfc & _).
  unfold chunk.
  rewrite counting_loop by (unfold min32; lia).
  destruct (fold_blocks
    (fun x output =>
       channels zero add mul get_window_start get_window_end a fuel weights
         values (coordinates a x) output)
    element 0 (dim a) (length output) (Z.to_nat (hi - lo))
    ltac:(lia) lo) with (out := output) as (output' & Hrun & Hw).
  - intros x out Hx Hout.
    destruct (coordinates_in_space a Hshape x ltac:(lia)) as [Hin Hflat].
    destruct (channels_within (coordinates a x) out Hin ltac:(lia))
      as (out' & Hrun & Hw).
    exists out'. split; [exact Hrun|].
    rewrite Hflat in Hw. exact Hw.
  - reflexivity.
  - exists output'. split; [exact Hrun|].
    replace (0 + lo * dim a) with (lo * dim a) in Hw by ring.
    replace (0 + (lo + Z.of_nat (Z.to_nat (hi - lo))) * dim a)
      with (hi * dim a) in Hw by (rewrite Z2Nat.id by lia; ring).
    exact Hw.
Qed.

(** A chunk of the flat range overwrites the output vectors of its
    coordinates. *)
Lemma chunk_exact lo hi (output : list scalar_t) :
  0 <= lo <= hi -> hi <= coordinate_count a ->
  Z.of_nat (length output) = coordinate_count a * dim a ->
  exists output',
    chunk zero add mul get_window_start get_window_end a fuel weights
      values lo hi output = Ok output'
    /\ written_between (lo * dim a) (hi * dim a) element output output'.
Proof.
  intros Hlo Hhi Hlen. apply chunk_within; [exact Hlo | exact Hhi | lia].
Qed.

Lemma written_unique lo hi f (out out1 out2 : list scalar_t) :
  written_between lo hi f out out1 ->
  written_between lo hi f out out2 -> out1 = out2.
Proof.
  intros [Hlen1 H1] [Hlen2 H2]. apply list_eq. intros i.
  destruct (Nat.lt_ge_cases i (length out)) as [Hlt | Hge].
  - specialize (H1 (Z.of_nat i) ltac:(lia)).
    specialize (H2 (Z.of_nat i) ltac:(lia)).
    rewrite Nat2Z.id in *. congruence.
  - rewrite !(proj2 (lookup_ge_None _ _)) by lia. reflexivity.
Qed.

Lemma written_trans_swapped lo mid hi f (out0 out1 out2 : list scalar_t) :
  lo <= mid <= hi ->
  written_between mid hi f out0 out1 ->
  written_between lo mid f out1 out2 ->
  written_between lo hi f out0 out2.
Proof.
  intros Hmid [Hlen1 H1] [Hlen2 H2]. split; [congruence|].
  intros n Hn. rewrite H2 by lia. rewrite H1 by lia.
  destruct (Z.leb_spec lo n), (Z.ltb_spec n hi), (Z.leb_spec mid n),
    (Z.ltb_spec n mid); simpl; try reflexivity; lia.
Qed.

(** Two chunks that split a range leave, in either order, what one
    chunk over the range leaves: the schedule of [at::parallel_for]
    does not show in the output. *)
Lemma chunk_schedule lo mid hi (output : list scalar_t) :
  0 <= lo <= mid -> mid <= hi -> hi <= coordinate_count a ->
  Z.of_nat (length output) = coordinate_count a * dim a ->
  let run := chunk zero add mul get_window_start get_window_end a fuel
               weights values in
  (out ← run lo mid output; run mid hi out) = run lo hi output
  /\ (out ← run mid hi output; run lo mid out) = run lo hi output.
Proof.
  intros Hlo Hmid Hhi Hlen run. pose proof Hshape as Hshape'.
  destruct Hshape'.
  destruct (chunk_exact lo hi output ltac:(lia) Hhi Hlen)
    as (whole & Hwhole & Hw). fold run in Hwhole. rewrite Hwhole.
  assert (Hdim : lo * dim a <= mid * dim a <= hi * dim a) by nia.
  split.
  - destruct (chunk_exact lo mid output ltac:(lia) ltac:(lia) Hlen)
      as (out1 & Hrun1 & Hw1). fold run in Hrun1. rewrite Hrun1.
    destruct (chunk_exact mid hi out1 ltac:(lia) Hhi)
      as (out2 & Hrun2 & Hw2).
    { destruct Hw1 as [Hlen1 _]. lia. }
    fold run in Hrun2. cbn [mbind result_bind]. rewrite Hrun2. f_equal.
    eapply written_unique; [|exact Hw].
    eapply written_trans; eassumption.
  - destruct (chunk_exact mid hi output ltac:(lia) Hhi Hlen)
      as (out1 & Hrun1 & Hw1). fold run in Hrun1. rewrite Hrun1.
    destruct (chunk_exact lo mid out1 ltac:(lia) ltac:(lia))
      as (out2 & Hrun2 & Hw2).
    { destruct Hw1 as [Hlen1 _]. lia. }
    fold run in Hrun2. cbn [mbind result_bind]. rewrite Hrun2. f_equal.
    eapply written_unique; [|exact Hw].
    eapply written_trans_swapped; eassumption.
Qed.

(** [launch] succeeds and leaves in every element of [output] the
    ordered sum of its window. *)
Lemma launch_exact (output : list scalar_t) :
  Z.of_nat (length output) = coordinate_count a * dim a ->
  exists output',
    launch zero add mul get_window_start get_window_end a fuel weights
      values output = Ok output'
    /\ length output' = length output
    /\ forall n, 0 <= n < coordinate_count a * dim a ->
         output' !! Z.to_nat n = Some (element n).
Proof.
  intros Hlen. pose proof Hshape as Hshape'. destruct Hshape'.
  unfold launch. rewrite (problem_size_exact a Hshape).
  destruct (chunk_exact 0 (coordinate_count a) output)
    as (output' & Hrun & Hlen' & Hw); try (unfold coordinate_count; nia).
  { exact Hlen. }
  exists output'. split; [exact Hrun|]. split; [exact Hlen'|].
  intros n Hn. rewrite Hw by lia.
  destruct (Z.leb_spec (0 * dim a) n), (Z.ltb_spec n (coordinate_count a * dim a));
    simpl; try reflexivity; lia.
Qed.

(** In a buffer that holds the tensor [launch] overwrites the tensor
    and nothing else. *)
Lemma launch_within (output : list scalar_t) :
  coordinate_count a * dim a <= Z.of_nat (length output) ->
  exists output',
    launch zero add mul get_window_start get_window_end a fuel weights
      values output = Ok output'
    /\ written_between 0 (coordinate_count a * dim a) element output output'.
Proof.
  intros Hlen. pose proof Hshape as Hshape'. destruct Hshape'.
  unfold launch. rewrite (problem_size_exact a Hshape).
  destruct (chunk_within 0 (coordinate_count a) output)
    as (output' & Hrun & Hw); try (unfold coordinate_count; nia).
  { exact Hlen. }
  exists output'. split; [exact Hrun|].
  replace (0 * dim a) with 0 in Hw by ring. exact Hw.
Qed.

(** *** The order of the stores *)

Lemma launch_as_stores (output : list scalar_t) :
  Z.of_nat (length output) = coordinate_count a * dim a ->
  launch zero add mul get_window_start get_window_end a fuel weights
    values output
  = fold_result (fun n out => store out n (element n))
      (strided (Z.to_nat (coordinate_count a * dim a)) 0 1) output.
Proof.
  intros Hlen. pose proof Hshape as Hshape'. destruct Hshape'.
  destruct (launch_exact output Hlen) as (out1 & -> & Hlen1 & Hall1).
  destruct (fold_blocks (fun n out => store out n (element n)) element
              0 1 (length output) (Z.to_nat (coordinate_count a * dim a))
              ltac:(lia) 0) with (out := output)
    as (out2 & -> & Hlen2 & Hall2).
  - intros n out Hn Hout. rewrite store_in_range by lia.
    eexists. split; [reflexivity|].
    replace (0 + n * 1) with n by ring. apply written_store. lia.
  - reflexivity.
  - f_equal. apply list_eq. intros i.
    destruct (Nat.lt_ge_cases i (length output)) as [Hlt | Hge].
    + specialize (Hall1 (Z.of_nat i) ltac:(lia)).
      specialize (Hall2 (Z.of_nat i) ltac:(lia)).
      rewrite Nat2Z.id in *. rewrite Hall1, Hall2.
      destruct (Z.leb_spec (0 + 0 * 1) (Z.of_nat i)),
        (Z.ltb_spec (Z.of_nat i)
           (0 + (0 + Z.of_nat (Z.to_nat (coordinate_count a * dim a))) * 1));
        simpl; try reflexivity; lia.
    + rewrite !(proj2 (lookup_ge_None _ _)) by lia. reflexivity.
Qed.

End Run.

Lemma bind_ext_in {A B} (f g : A -> list B) l :
  (forall x, In x l -> f x = g x) -> l ≫= f = l ≫= g.
Proof.
  induction l as [|x l IH]; intros Hext; [reflexivity|].
  cbn [mbind list_bind]. rewrite (Hext x) by (now left).
  f_equal. apply IH. intros y Hy. apply Hext. now right.
Qed.

Lemma in_bind {A B} (f : A -> list B) l y :
  In y (l ≫= f) <-> exists x, In x l /\ In y (f x).
Proof.
  rewrite <- list_elem_of_In, list_elem_of_bind.
  split; intros (x & H1 & H2); exists x;
    rewrite <- ?list_elem_of_In in *; rewrite ?list_elem_of_In in *; tauto.
Qed.

Lemma fold_left_ext_in {A B} (f g : A -> B -> A) l u :
  (forall u x, In x l -> f u x = g u x) -> fold_left f l u = fold_left g l u.
Proof.
  revert u. induction l as [|x l IH]; intros u Hext; cbn; [reflexivity|].
  rewrite Hext by (now left). apply IH. intros; apply Hext; now right.
Qed.

Lemma strided_offsets n base start :
  (strided n start 1 ≫= fun d => [base + d]) = strided n (base + start) 1.
Proof.
  revert start. induction n as [|n IH]; intros start; [reflexivity|].
  cbn [strided mbind list_bind app]. f_equal.
  rewrite IH. f_equal. ring.
Qed.

Lemma strided_blocks n m lo :
  (strided n lo 1 ≫= fun x => strided m (x * Z.of_nat m) 1)
  = strided (n * m) (lo * Z.of_nat m) 1.
Proof.
  revert lo. induction n as [|n IH]; intros lo; [reflexivity|].
  cbn [strided mbind list_bind Nat.mul]. rewrite IH, strided_app.
  do 2 f_equal. ring.
Qed.

Lemma NoDup_strided n start : NoDup (strided n start 1).
Proof.
  revert start. induction n as [|n IH]; intros start; cbn [strided].
  - constructor.
  - constructor; [|apply IH].
    rewrite list_elem_of_In, in_strided. intros (t & Ht & Heq). lia.
Qed.

Lemma store_trace_exact a :
  valid_shape a ->
  store_trace a = strided (Z.to_nat (coordinate_count a * dim a)) 0 1.
Proof.
  intros Hshape. pose proof Hshape as Hshape'. destruct Hshape'.
  assert (Hcount : 0 < coordinate_count a) by (unfold coordinate_count; nia).
  unfold store_trace. rewrite (problem_size_exact a Hshape).
  transitivity (strided (Z.to_nat (coordinate_count a)) 0 1 ≫= fun x =>
                strided (Z.to_nat (dim a)) (x * Z.of_nat (Z.to_nat (dim a))) 1).
  - apply bind_ext_in. intros x Hx.
    apply in_strided in Hx as (t & Ht & ->).
    destruct (coordinates_in_space a Hshape (0 + t * 1) ltac:(lia))
      as [Hin Hflat].
    transitivity (strided (Z.to_nat (dim a)) 0 1 ≫= fun d =>
                  [(0 + t * 1) * Z.of_nat (Z.to_nat (dim a)) + d]).
    + apply bind_ext_in. intros d Hd.
      apply in_strided in Hd as (u & Hu & ->).
      rewrite (linearIndex_exact a Hshape) by (assumption || lia).
      unfold dense_offset. rewrite Hflat. do 2 f_equal. lia.
    + rewrite strided_offsets. f_equal. ring.
  - rewrite strided_blocks, Z2Nat.inj_mul by lia. reflexivity.
Qed.

(** *** Sums in an associative arithmetic *)

Section Sums.

Context {scalar_t : Type}.
Variable zero : scalar_t.
Variable add : scalar_t -> scalar_t -> scalar_t.
Hypothesis add_assoc : forall x y z, add x (add y z) = add (add x y) z.
Hypothesis add_zero_l : forall x, add zero x = x.
Hypothesis add_zero_r : forall x, add x zero = x.

Lemma fold_left_sum (g : Z -> scalar_t) l u :
  fold_left (fun u x => add u (g x)) l u = add u (sum_over zero add l g).
Proof.
  revert u. induction l as [|x l IH]; intros u; cbn.
  - now rewrite add_zero_r.
  - rewrite IH. unfold sum_over. now rewrite add_assoc.
Qed.

Lemma fold_left_ext {B} (f g : scalar_t -> B -> scalar_t) l u :
  (forall u x, f u x = g u x) -> fold_left f l u = fold_left g l u.
Proof.
  intros Hext. revert u. induction l as [|x l IH]; intros u; cbn;
    [reflexivity|]. rewrite Hext. apply IH.
Qed.

(** The accumulation of a triple loop is the triple sum. *)
Lemma fold_left_triple_sum (p : Z -> Z -> Z -> scalar_t) l0 l1 l2 :
  fold_left (fun u x => add u (let '(xk, xi, xj) := x in p xk xi xj))
    (l0 ≫= fun xk => l1 ≫= fun xi => l2 ≫= fun xj => [(xk, xi, xj)]) zero
  = sum_over zero add l0 (fun xk =>
      sum_over zero add l1 (fun xi =>
        sum_over zero add l2 (fun xj => p xk xi xj))).
Proof.
  rewrite fold_left_bind.
  rewrite (fold_left_ext _
    (fun u xk => add u (sum_over zero add l1 (fun xi =>
                          sum_over zero add l2 (fun xj => p xk xi xj))))).
  - rewrite fold_left_sum. apply add_zero_l.
  - intros u xk. rewrite fold_left_bind.
    rewrite (fold_left_ext _
      (fun u xi => add u (sum_over zero add l2 (fun xj => p xk xi xj)))).
    + apply fold_left_sum.
    + intros u' xi. rewrite fold_left_bind.
      rewrite (fold_left_ext _ (fun u xj => add u (p xk xi xj))).
      * apply fold_left_sum.
      * reflexivity.
Qed.

End Sums.

(** *** The windows of the kernel are those of section 4.3 *)

Section Reference.

Context {scalar_t : Type}.
Variable zero : scalar_t.
Variable add mul : scalar_t -> scalar_t -> scalar_t.
Variable get_window_start : Z -> Z -> Z -> Z -> Z -> bool -> Z.
Variable get_window_end : Z -> Z -> Z -> Z -> Z -> Z -> bool -> Z.
Variable a : launch_args.
Hypothesis Hshape : valid_shape a.

Lemma kernel_sizes_fit :
  kernel_size_0 a <= max32 /\ kernel_size_1 a <= max32
  /\ kernel_size_2 a <= max32.
Proof.
  destruct Hshape. unfold kernel_volume in *.
  assert (1 <= kernel_size_1 a * kernel_size_2 a) by nia.
  assert (1 <= kernel_size_0 a * kernel_size_1 a) by nia.
  repeat split; nia.
Qed.

Lemma neighborhood_size_exact kernel_size :
  1 <= kernel_size <= max32 -> div32 kernel_size 2 = kernel_size / 2.
Proof.
  intros Hk. unfold div32. rewrite Z.quot_div_nonneg by lia.
  apply i32_small.
  pose proof (Z.div_pos kernel_size 2 ltac:(lia) ltac:(lia)).
  pose proof (Z.div_le_upper_bound kernel_size 2 kernel_size ltac:(lia)
                ltac:(lia)).
  unfold in32, min32. lia.
Qed.

Lemma neighborhood_sizes_exact :
  neighborhood_size_0 a = kernel_size_0 a / 2
  /\ neighborhood_size_1 a = kernel_size_1 a / 2
  /\ neighborhood_size_2 a = kernel_size_2 a / 2.
Proof.
  pose proof kernel_sizes_fit as (H0 & H1 & H2). destruct Hshape.
  repeat split; apply neighborhood_size_exact; lia.
Qed.

Lemma windows_resolved c :
  window_0 get_window_start get_window_end a c
  = window_k get_window_start get_window_end a c
  /\ window_1 get_window_start get_window_end a c
     = window_i get_window_start get_window_end a c
  /\ window_2 get_window_start get_window_end a c
     = window_j get_window_start get_window_end a c.
Proof.
  destruct neighborhood_sizes_exact as (H0 & H1 & H2).
  unfold window_0, window_1, window_2, window_k, window_i, window_j, resolve.
  rewrite H0, H1, H2. repeat split.
Qed.

Lemma windows_in_range_resolved :
  windows_in_range get_window_start get_window_end a
  = resolved_in_range get_window_start get_window_end a.
Proof.
  destruct neighborhood_sizes_exact as (H0 & H1 & H2).
  unfold windows_in_range, resolved_in_range. rewrite H0, H1, H2.
  reflexivity.
Qed.

Lemma row_major_resolved c :
  row_major get_window_start get_window_end a c
  = window_order get_window_start get_window_end a c.
Proof.
  destruct (windows_resolved c) as (H0 & H1 & H2).
  unfold row_major, window_order. now rewrite H0, H1, H2.
Qed.

Variables weights values : list scalar_t.
Hypothesis Hwindows :
  resolved_in_range get_window_start get_window_end a = true.
Hypothesis Hweights : weights_in_range a weights = true.
Hypothesis Hvalues :
  Z.of_nat (length values) = coordinate_count a * dim a.

(** The accumulation of the kernel, read on the tensors: the products
    of section 4.3 over the windows of section 4.3, in row-major
    order. *)
Lemma ordered_sum_terms c d :
  in_space a c -> 0 <= d < dim a ->
  ordered_sum zero add mul get_window_start get_window_end a weights values
    c d
  = fold_left
      (fun updt x =>
         add updt (term zero mul get_window_start get_window_end a weights
                     values c d x))
      (window_order get_window_start get_window_end a c) zero.
Proof.
  intros Hc Hd. pose proof Hwindows as Hwindows'.
  rewrite <- windows_in_range_resolved in Hwindows'.
  unfold ordered_sum. rewrite <- row_major_resolved.
  apply fold_left_ext_in. intros updt [[xk xi] xj] Hin. f_equal.
  unfold row_major in Hin.
  apply in_bind in Hin as (xk' & Hxk & Hin).
  apply in_bind in Hin as (xi' & Hxi & Hin).
  apply in_bind in Hin as (xj' & Hxj & Hin).
  destruct Hin as [Heq | []]. injection Heq as -> -> ->.
  destruct (window_sample_exact get_window_start get_window_end a weights
              values Hshape Hwindows' Hweights Hvalues c d xk xi xj Hc Hd
              Hxk Hxi Hxj) as (Hw & _ & _ & Hv & _).
  destruct (windows_resolved c) as (H0 & H1 & H2).
  unfold product, term. rewrite Hw, Hv, H0, H1, H2. reflexivity.
Qed.

(** Three nested loops add up what one loop over the row-major order
    adds up. *)
Lemma weighted_sum_ordered c d :
  weighted_sum zero add mul get_window_start get_window_end a weights values
    c d
  = fold_left
      (fun updt x =>
         add updt (term zero mul get_window_start get_window_end a weights
                     values c d x))
      (window_order get_window_start get_window_end a c) zero.
Proof.
  unfold weighted_sum, window_order.
  rewrite fold_left_bind. apply fold_left_ext_in. intros sum xk _.
  rewrite fold_left_bind. apply fold_left_ext_in. intros sum' xi _.
  rewrite fold_left_bind. reflexivity.
Qed.

(** [launch] succeeds and leaves in every element of [output] the
    weighted sum of section 4.3. *)
Lemma launch_reference fuel (output : list scalar_t) :
  (fuel_needed a <= fuel)%nat ->
  Z.of_nat (length output) = coordinate_count a * dim a ->
  exists output',
    launch zero add mul get_window_start get_window_end a fuel weights
      values output = Ok output'
    /\ forall c d, in_space a c -> 0 <= d < dim a ->
         output' !! Z.to_nat (dense_offset a c d)
         = Some (weighted_sum zero add mul get_window_start get_window_end a
                   weights values c d).
Proof.
  intros Hfuel Hlen. pose proof Hwindows as Hwindows'.
  rewrite <- windows_in_range_resolved in Hwindows'.
  destruct (launch_exact zero add mul get_window_start get_window_end a
              weights values Hshape Hwindows' Hweights Hvalues fuel Hfuel
              output Hlen)
    as (output' & Hrun & _ & Hall).
  exists output'. split; [exact Hrun|]. intros c d Hc Hd.
  rewrite Hall by (apply dense_offset_range; assumption).
  f_equal.
  rewrite (element_of_coordinate zero add mul get_window_start
             get_window_end a weights values Hshape c d Hc Hd).
  rewrite (ordered_sum_terms c d Hc Hd).
  symmetry. apply weighted_sum_ordered.
Qed.

End Reference.

End KernelFacts.

(** ** The properties of the specification *)

Import Resolver Kernel LoopFacts ResolverFacts KernelFacts.

(** *** The resolver *)

(** Section 8, scenarios 2 to 4. *)
Example scenario_2 :
  window 0 5 3 1 false = (0, 3) /\ window 2 5 3 1 false = (1, 4)
  /\ window 4 5 3 1 false = (2, 5).
Proof. repeat split. Qed.

Example scenario_3 :
  window 0 5 3 1 true = (0, 1) /\ window 4 5 3 1 true = (2, 5).
Proof. repeat split. Qed.

Example scenario_4 :
  window 4 9 3 2 false = (2, 8)
  /\ sampled_positions 3 2 8 2 = Ok [2; 4; 6].
Proof. split; reflexivity. Qed.

(** An even kernel size at the end of an axis, and lanes that hold fewer
    positions than the kernel size: the window keeps the position and
    stays in the axis. *)
Example even_kernel_and_short_lanes :
  window 4 5 2 1 false = (3, 5) /\ window 0 5 2 1 false = (0, 2)
  /\ window 1 3 3 2 false = (1, 3) /\ window 2 3 3 2 false = (0, 3).
Proof. repeat split. Qed.

(** C2, as stated, fails at the input of scenario 4, which meets its
    hypotheses: on a non-causal axis of 9 positions with kernel size 3
    and dilation 2 the window of position 4 is [[2, 8)], as scenario 4
    states, and its width 6 exceeds the kernel size 3. *)
Lemma stated_contract_fails :
  0 <= 4 < 9 /\ 3 <= 9 /\ 1 <= 2
  /\ window 4 9 3 2 false = (2, 8)
  /\ ~ stated_contract 4 9 3 2.
Proof.
  unfold stated_contract.
  change (window 4 9 3 2 false) with (2, 8).
  repeat split; lia.
Qed.

(** C2, amended: on a non-causal axis, for every position of the axis,
    every kernel size from 1 to the extent and every dilation of at
    least 1, the window contains the position, lies in the axis, starts
    in the lane of the position and is at most [kernel_size * dilation]
    wide, so that at most [kernel_size] positions are sampled.  With
    dilation 1 it is exactly [kernel_size] wide at every position: the
    window shifts near the boundaries and keeps its width.  Under any
    dilation with [kernel_size * dilation <= axis_extent] it holds
    exactly [kernel_size] samples, and away from the boundaries it
    starts [radius] samples before the position. *)
Theorem noncausal_window_contract position axis_extent kernel_size dilation :
  0 <= position < axis_extent ->
  1 <= kernel_size -> kernel_size <= axis_extent -> 1 <= dilation ->
  let '(s, e) := window position axis_extent kernel_size dilation false in
  let radius := kernel_size / 2 in
  s <= position < e
  /\ 0 <= s /\ e <= axis_extent
  /\ (position - s) mod dilation = 0
  /\ e - s <= kernel_size * dilation
  /\ Z.of_nat (sample_count s e dilation) <= kernel_size
  /\ (dilation = 1 -> e - s = kernel_size)
  /\ (kernel_size * dilation <= axis_extent ->
      Z.of_nat (sample_count s e dilation) = kernel_size)
  /\ (radius * dilation <= position < axis_extent - radius * dilation ->
      s = position - radius * dilation).
Proof.
  intros Hp Hk Hle Hd.
  pose proof (window_shape position axis_extent kernel_size dilation false
                Hp Hk Hd) as Hshape.
  pose proof (noncausal_window position axis_extent kernel_size dilation
                Hp Hk Hd) as Hnc.
  destruct (window position axis_extent kernel_size dilation false) as [s e].
  destruct Hshape as (t & Ht & Hpos & Hs & Hin & Hspan & Hend & _ & He).
  specialize (He eq_refl). cbv zeta in *.
  destruct Hnc as (Hfull & Hone & Hmid).
  assert (Hback : 0 <= t * dilation) by nia.
  assert (Hlane : (position - s) mod dilation = 0).
  { rewrite Hpos. replace (s + t * dilation - s) with (t * dilation) by ring.
    apply Z.mod_mul. lia. }
  pose proof (sample_count_bound s e dilation kernel_size Hd ltac:(lia) Hspan)
    as Hcount.
  assert (Hexact : kernel_size * dilation <= axis_extent ->
            Z.of_nat (sample_count s e dilation) = kernel_size).
  { intros Hfit. specialize (Hfull Hfit).
    rewrite sample_count_ceil by lia. apply ceil_exact; lia. }
  repeat split; try assumption; lia.
Qed.

Lemma noncausal_window_contract_witness :
  window 7 9 4 2 false = (1, 9)
  /\ let '(s, e) := window 7 9 4 2 false in
     let radius := 4 / 2 in
     s <= 7 < e /\ 0 <= s /\ e <= 9 /\ (7 - s) mod 2 = 0 /\ e - s <= 4 * 2
     /\ Z.of_nat (sample_count s e 2) <= 4 /\ (2 = 1 -> e - s = 4)
     /\ (4 * 2 <= 9 -> Z.of_nat (sample_count s e 2) = 4)
     /\ (radius * 2 <= 7 < 9 - radius * 2 -> s = 7 - radius * 2).
Proof.
  split; [reflexivity|].
  apply (noncausal_window_contract 7 9 4 2); lia.
Defined.

(** C3: on a causal axis, for every position of the axis, the window ends
    right after the position ([window_end - 1 = position]); without
    dilation it starts at [max 0 (position - kernel_size + 1)]; under any
    dilation the loop samples at most [kernel_size] positions, none after
    the position, and the last one is the position. *)
Theorem causal_window_bound position axis_extent kernel_size dilation fuel :
  0 <= position < axis_extent -> 1 <= kernel_size -> 1 <= dilation ->
  axis_extent + dilation <= max32 ->
  Z.of_nat (Z.to_nat kernel_size) <= Z.of_nat fuel ->
  let '(s, e) := window position axis_extent kernel_size dilation true in
  e - 1 = position
  /\ (dilation = 1 -> s = Z.max 0 (position - kernel_size + 1))
  /\ exists visited,
       sampled_positions fuel s e dilation = Ok (visited ++ [position])
       /\ Z.of_nat (length (visited ++ [position])) <= kernel_size
       /\ (forall x, In x (visited ++ [position]) -> x <= position).
Proof.
  intros Hp Hk Hd Hfit Hfuel.
  pose proof (window_shape position axis_extent kernel_size dilation true
                Hp Hk Hd) as Hshape.
  assert (Hone : dilation = 1 ->
            fst (window position axis_extent kernel_size dilation true)
            = Z.max 0 (position - kernel_size + 1)).
  { intros ->. unfold window. cbn [fst]. rewrite window_start_lane.
    unfold lane_index, lane_offset. rewrite Z.div_1_r, Z.mod_1_r. lia. }
  destruct (window position axis_extent kernel_size dilation true) as [s e].
  cbn [fst] in Hone.
  destruct Hshape as (t & Ht & Hpos & Hs & Hlt & Hspan & Hend & Hc & _).
  specialize (Hc eq_refl).
  split; [lia|]. split; [exact Hone|].
  assert (Hcount : sample_count s e dilation = (Z.to_nat t + 1)%nat).
  { unfold sample_count.
    replace (e - s + dilation - 1) with ((t + 1) * dilation) by lia.
    rewrite Z.div_mul by lia. lia. }
  exists (strided (Z.to_nat t) s dilation).
  rewrite sampled_positions_strided; try lia; [|unfold min32; lia].
  rewrite Hcount, strided_app. cbn [strided].
  rewrite Z2Nat.id by lia. rewrite <- Hpos.
  split; [reflexivity|]. split.
  - rewrite length_app, length_strided. cbn [length]. lia.
  - intros x Hin. apply in_app_or in Hin as [Hin | [<- | []]]; [|lia].
    apply in_strided in Hin as (u & Hu & ->). nia.
Qed.

Lemma causal_window_bound_witness :
  window 5 9 3 2 true = (1, 6)
  /\ let '(s, e) := window 5 9 3 2 true in
     e - 1 = 5
     /\ (2 = 1 -> s = Z.max 0 (5 - 3 + 1))
     /\ exists visited,
          sampled_positions 3 s e 2 = Ok (visited ++ [5])
          /\ Z.of_nat (length (visited ++ [5])) <= 3
          /\ (forall x, In x (visited ++ [5]) -> x <= 5).
Proof.
  split; [reflexivity|].
  apply (causal_window_bound 5 9 3 2 3); unfold max32; lia.
Defined.

(** C4: for every position of an axis, in both causal modes, with a
    kernel size between 1 and the extent and a dilation of at least 1,
    the loop that steps from [window_start] through
    [[window_start, window_end)] in increments of the dilation visits
    [ceil ((window_end - window_start) / dilation)] positions, and never
    more than [kernel_size]. *)
Theorem sample_count_bounded position axis_extent kernel_size dilation
    is_causal fuel :
  0 <= position < axis_extent ->
  1 <= kernel_size -> kernel_size <= axis_extent -> 1 <= dilation ->
  axis_extent + dilation <= max32 -> kernel_size * dilation <= max32 ->
  Z.of_nat (Z.to_nat kernel_size) <= Z.of_nat fuel ->
  let '(s, e) := window position axis_extent kernel_size dilation is_causal in
  exists visited,
    sampled_positions fuel s e dilation = Ok visited
    /\ Z.of_nat (length visited) = (e - s + dilation - 1) / dilation
    /\ Z.of_nat (length visited) <= kernel_size.
Proof.
  intros Hp Hk Hle Hd Hfit Hspan32 Hfuel.
  pose proof (window_shape position axis_extent kernel_size dilation is_causal
                Hp Hk Hd) as Hshape.
  destruct (window position axis_extent kernel_size dilation is_causal)
    as [s e].
  destruct Hshape as (t & Ht & Hpos & Hs & Hlt & Hspan & Hend & _ & _).
  pose proof (sample_count_bound s e dilation kernel_size Hd ltac:(lia) Hspan)
    as Hcount.
  assert (Hback : 0 <= t * dilation <= kernel_size * dilation) by nia.
  exists (strided (sample_count s e dilation) s dilation).
  rewrite sampled_positions_strided; try lia;
    [|unfold min32, max32 in *; lia].
  rewrite length_strided, sample_count_ceil by lia.
  rewrite <- (sample_count_ceil s e dilation) by lia.
  repeat split; lia.
Qed.

Lemma sample_count_bounded_witness :
  window 7 9 3 2 false = (3, 9)
  /\ let '(s, e) := window 7 9 3 2 false in
     exists visited,
       sampled_positions 3 s e 2 = Ok visited
       /\ Z.of_nat (length visited) = (e - s + 2 - 1) / 2
       /\ Z.of_nat (length visited) <= 3.
Proof.
  split; [reflexivity|].
  apply (sample_count_bounded 7 9 3 2 false 3); unfold max32; lia.
Defined.

(** C5: for every position of an axis, in both causal modes, with a
    kernel size between 1 and the extent and a dilation of at least 1,
    the window starts in the lane of the position
    ([position ≡ window_start (mod dilation)]) and contains the position
    ([window_start <= position < window_end]), and the loop that steps
    from [window_start] through the window in increments of the
    dilation visits the position. *)
Theorem window_contains_center position axis_extent kernel_size dilation
    is_causal fuel :
  0 <= position < axis_extent ->
  1 <= kernel_size -> kernel_size <= axis_extent -> 1 <= dilation ->
  axis_extent + dilation <= max32 -> kernel_size * dilation <= max32 ->
  Z.of_nat (Z.to_nat kernel_size) <= Z.of_nat fuel ->
  let '(s, e) := window position axis_extent kernel_size dilation is_causal in
  (position - s) mod dilation = 0 /\ s <= position < e
  /\ exists visited,
       sampled_positions fuel s e dilation = Ok visited /\ In position visited.
Proof.
  intros Hp Hk Hle Hd Hfit Hspan32 Hfuel.
  pose proof (window_shape position axis_extent kernel_size dilation is_causal
                Hp Hk Hd) as Hshape.
  destruct (window position axis_extent kernel_size dilation is_causal)
    as [s e].
  destruct Hshape as (t & Ht & Hpos & Hs & Hin & Hspan & Hend & _ & _).
  pose proof (sample_count_bound s e dilation kernel_size Hd ltac:(lia) Hspan)
    as Hcount.
  assert (Hback : 0 <= t * dilation <= kernel_size * dilation) by nia.
  split; [|split; [lia|]].
  - rewrite Hpos. replace (s + t * dilation - s) with (t * dilation) by ring.
    apply Z.mod_mul. lia.
  - exists (strided (sample_count s e dilation) s dilation).
    rewrite sampled_positions_strided; try lia;
      [|unfold min32, max32 in *; lia].
    split; [reflexivity|]. apply in_strided. exists t.
    split; [|exact Hpos].
    rewrite sample_count_ceil by lia.
    assert (t + 1 <= (e - s + dilation - 1) / dilation); [|lia].
    apply Z.div_le_lower_bound; lia.
Qed.

Lemma window_contains_center_witness :
  window 4 5 2 1 false = (3, 5)
  /\ let '(s, e) := window 4 5 2 1 false in
     (4 - s) mod 1 = 0 /\ s <= 4 < e
     /\ exists visited, sampled_positions 2 s e 1 = Ok visited /\ In 4 visited.
Proof.
  split; [reflexivity|].
  apply (window_contains_center 4 5 2 1 false 2); unfold max32; lia.
Defined.

(** *** The kernel *)

(** Section 8, scenario 1. *)
Example scenario_1 :
  Sample.run (Sample.args 1 1 1 1 1 1 (1, 1, 1) (1, 1, 1)
                 (false, false, false)) 1 [3] [5] [0]
  = Ok [3 * 5].
Proof. reflexivity. Qed.

Section KernelProperties.

Context {scalar_t : Type}.
Variable zero : scalar_t.
Variable add mul : scalar_t -> scalar_t -> scalar_t.
Variable get_window_start : Z -> Z -> Z -> Z -> Z -> bool -> Z.
Variable get_window_end : Z -> Z -> Z -> Z -> Z -> Z -> bool -> Z.
Variable a : launch_args.

Abbreviation window_0 := (Kernel.window_0 get_window_start get_window_end a).
Abbreviation window_1 := (Kernel.window_1 get_window_start get_window_end a).
Abbreviation window_2 := (Kernel.window_2 get_window_start get_window_end a).
Abbreviation window_k := (Kernel.window_k get_window_start get_window_end a).
Abbreviation window_i := (Kernel.window_i get_window_start get_window_end a).
Abbreviation window_j := (Kernel.window_j get_window_start get_window_end a).
Abbreviation launch :=
  (Kernel.launch zero add mul get_window_start get_window_end a).

(** C1: for a valid shape, windows in range and buffers of the right
    sizes, [launch] returns, and for every coordinate [(b, h, k, i, j)]
    of the output space and every channel [d] it leaves at
    [output[b, h, k, i, j, d]] the sum over [xk], [xi], [xj] in the three
    windows of section 4.3, each stepped by its dilation, of
    [weights[b, h, k, i, j, enum xk xi xj] * values[b, h, xk, xi, xj, d]].
    The sum is the one the triple nested loop adds up, in any scalar
    type; where addition is associative with unit [zero] it is the sum
    of sums of sums.  [enum] is row-major over the offsets from the
    window starts in units of the dilation and lies in
    [[0, kernel_volume)]. *)
Theorem launch_weighted_sum fuel weights values output :
  valid_shape a ->
  resolved_in_range get_window_start get_window_end a = true ->
  valid_buffers a weights values output ->
  (fuel_needed a <= fuel)%nat ->
  exists output',
    launch fuel weights values output = Ok output'
    /\ forall c d, in_space a c -> 0 <= d < dim a ->
         output' !! Z.to_nat (dense_offset a c d)
         = Some (weighted_sum zero add mul get_window_start get_window_end a
                   weights values c d)
         /\ ((forall x y z, add x (add y z) = add (add x y) z) ->
             (forall x, add zero x = x) -> (forall x, add x zero = x) ->
             weighted_sum zero add mul get_window_start get_window_end a
               weights values c d
             = sum_of_sums zero add mul get_window_start get_window_end a
                 weights values c d)
         /\ forall xk xi xj,
              In xk (window_positions (window_k c) (dilation_0 a)) ->
              In xi (window_positions (window_i c) (dilation_1 a)) ->
              In xj (window_positions (window_j c) (dilation_2 a)) ->
              0 <= enum a (window_k c) (window_i c) (window_j c) xk xi xj
                < kernel_volume a.
Proof.
  intros Hshape Hresolved (Hweights & Hvalues & Hlen) Hfuel.
  destruct (launch_reference zero add mul get_window_start get_window_end a
              Hshape weights values Hresolved Hweights Hvalues fuel output
              Hfuel Hlen)
    as (output' & Hrun & Hall).
  exists output'. split; [exact Hrun|]. intros c d Hc Hd.
  split; [exact (Hall c d Hc Hd)|]. split.
  - intros Hassoc Hzl Hzr.
    rewrite weighted_sum_ordered. unfold window_order, sum_of_sums.
    apply (fold_left_triple_sum zero add Hassoc Hzl Hzr
             (fun xk xi xj =>
                term zero mul get_window_start get_window_end a weights
                  values c d (xk, xi, xj))).
  - intros xk xi xj Hxk Hxi Hxj.
    pose proof Hresolved as Hwindows.
    rewrite <- (windows_in_range_resolved _ _ a Hshape) in Hwindows.
    destruct (windows_resolved get_window_start get_window_end a Hshape c)
      as (H0 & H1 & H2).
    rewrite <- H0 in Hxk |- *. rewrite <- H1 in Hxi |- *.
    rewrite <- H2 in Hxj |- *.
    apply (window_sample_exact get_window_start get_window_end a weights
             values Hshape Hwindows Hweights Hvalues c d xk xi xj Hc Hd
             Hxk Hxi Hxj).
Qed.

(** C7: for every coordinate and channel the output element is the left
    fold, from [zero] and with the addition and product of [scalar_t]
    itself, of the products
    [weights[b, h, k, i, j, enum xk xi xj] * values[b, h, xk, xi, xj, d]]
    taken in row-major order over the windows of section 4.3 (axis 0
    outermost, axis 2 innermost).  No law of the arithmetic is used. *)
Theorem launch_ordered_sum fuel weights values output :
  valid_shape a ->
  resolved_in_range get_window_start get_window_end a = true ->
  valid_buffers a weights values output ->
  (fuel_needed a <= fuel)%nat ->
  exists output',
    launch fuel weights values output = Ok output'
    /\ forall c d, in_space a c -> 0 <= d < dim a ->
         output' !! Z.to_nat (dense_offset a c d)
         = Some (fold_left
                   (fun updt x =>
                      add updt (term zero mul get_window_start get_window_end
                                  a weights values c d x))
                   (window_positions (window_k c) (dilation_0 a) ≫= fun xk =>
                    window_positions (window_i c) (dilation_1 a) ≫= fun xi =>
                    window_positions (window_j c) (dilation_2 a) ≫= fun xj =>
                    [(xk, xi, xj)])
                   zero).
Proof.
  intros Hshape Hresolved (Hweights & Hvalues & Hlen) Hfuel.
  destruct (launch_reference zero add mul get_window_start get_window_end a
              Hshape weights values Hresolved Hweights Hvalues fuel output
              Hfuel Hlen)
    as (output' & Hrun & Hall).
  exists output'. split; [exact Hrun|]. intros c d Hc Hd.
  rewrite (Hall c d Hc Hd). f_equal. apply weighted_sum_ordered.
Qed.

(** C8: the map from [(b, h, k, i, j, d)] to the offset
    [b * values_stride_0 + h * values_stride_1 + k * values_stride_2
     + i * values_stride_3 + j * values_stride_4 + d] that the kernel
    stores to is injective on the tuples of the output space, so the
    offsets written for two distinct coordinates never meet. *)
Theorem linearIndex_injective c c' d d' :
  valid_shape a ->
  in_space a c -> in_space a c' -> 0 <= d < dim a -> 0 <= d' < dim a ->
  (linearIndex a c d = linearIndex a c' d' -> c = c' /\ d = d')
  /\ (c <> c' -> linearIndex a c d <> linearIndex a c' d').
Proof.
  intros Hshape Hc Hc' Hd Hd'.
  assert (Hinj : linearIndex a c d = linearIndex a c' d' -> c = c' /\ d = d').
  { rewrite !(linearIndex_exact a Hshape) by assumption.
    unfold dense_offset. intros Heq.
    apply radix_unique in Heq as [Hflat ->]; [|assumption..].
    split; [|reflexivity]. now apply (flatten_injective a). }
  split; [exact Hinj|]. intros Hne Heq. now apply Hne, Hinj.
Qed.

(** C9: [launch] runs over the flat range
    [[0, batch_size * heads * depth * height * width)]; the coordinate it
    computes from a flat index is the row-major coordinate of that
    index, [j] fastest ([coordinates] and [flatten] are inverse of each
    other); the stores go, in order, to the offsets
    [0, 1, ..., coordinate_count * dim - 1], each exactly once; and
    every element of the returned output is the value computed for it. *)
Theorem output_fully_populated fuel weights values output :
  valid_shape a ->
  windows_in_range get_window_start get_window_end a = true ->
  valid_buffers a weights values output ->
  (fuel_needed a <= fuel)%nat ->
  problem_size a = coordinate_count a
  /\ (forall x, 0 <= x < coordinate_count a ->
        in_space a (coordinates a x) /\ flatten a (coordinates a x) = x)
  /\ (forall c, in_space a c ->
        0 <= flatten a c < coordinate_count a
        /\ coordinates a (flatten a c) = c)
  /\ store_trace a = strided (Z.to_nat (coordinate_count a * dim a)) 0 1
  /\ NoDup (store_trace a)
  /\ exists output',
       launch fuel weights values output = Ok output'
       /\ fold_result
            (fun n out =>
               store out n
                 (element zero add mul get_window_start get_window_end a
                    weights values n))
            (store_trace a) output = Ok output'
       /\ length output' = length output
       /\ forall n, 0 <= n < coordinate_count a * dim a ->
            output' !! Z.to_nat n
            = Some (element zero add mul get_window_start get_window_end a
                      weights values n).
Proof.
  intros Hshape Hwindows (Hweights & Hvalues & Hlen) Hfuel.
  split; [apply (problem_size_exact a Hshape)|].
  split; [apply (coordinates_in_space a Hshape)|].
  split.
  { intros c Hc. split.
    - now apply flatten_range.
    - now apply coordinates_flatten. }
  split; [apply (store_trace_exact a Hshape)|].
  split.
  { rewrite (store_trace_exact a Hshape). apply NoDup_strided. }
  destruct (launch_exact zero add mul get_window_start get_window_end a
              weights values Hshape Hwindows Hweights Hvalues fuel Hfuel
              output Hlen)
    as (output' & Hrun & Hlen' & Hall).
  exists output'. split; [exact Hrun|]. split; [|split; assumption].
  rewrite (store_trace_exact a Hshape), <- Hrun.
  symmetry.
  apply (launch_as_stores zero add mul get_window_start get_window_end a
           weights values Hshape Hwindows Hweights Hvalues fuel Hfuel
           output Hlen).
Qed.

(** C10: at every access of the window loops the offset into [weights]
    is [weightsOffset + enum xk xi xj]: the five strides of the caller
    enter through [weightsOffset] only and nothing multiplies [enum].
    A view of [weights] whose last dimension has stride [last_stride]
    agrees with the kernel at an access with [enum <> 0] exactly when
    [last_stride = 1]. *)
Theorem weights_last_stride_one (weights : list scalar_t) c xk xi xj
    last_stride :
  valid_shape a ->
  windows_in_range get_window_start get_window_end a = true ->
  weights_in_range a weights = true ->
  in_space a c ->
  In xk (window_positions (window_0 c) (dilation_0 a)) ->
  In xi (window_positions (window_1 c) (dilation_1 a)) ->
  In xj (window_positions (window_2 c) (dilation_2 a)) ->
  let e := enum a (window_0 c) (window_1 c) (window_2 c) xk xi xj in
  let index := weightsIndex a c (w_start (window_0 c)) (w_start (window_1 c))
                 (w_start (window_2 c)) xk xi xj in
  index = weightsOffset a c + e
  /\ weightsOffset a c = strided_offset a last_stride c 0
  /\ (e <> 0 -> (index = strided_offset a last_stride c e <-> last_stride = 1)).
Proof.
  intros Hshape Hwindows Hweights Hc Hxk Hxi Hxj e index.
  pose proof Hshape as Hshape'. destruct Hshape'.
  set (values := replicate (Z.to_nat (coordinate_count a * dim a)) zero).
  assert (Hvalues : Z.of_nat (length values) = coordinate_count a * dim a).
  { unfold values. rewrite length_replicate, Z2Nat.id; [reflexivity|].
    unfold coordinate_count. nia. }
  destruct (window_sample_exact get_window_start get_window_end a weights
              values Hshape Hwindows Hweights Hvalues c 0 xk xi xj Hc
              ltac:(lia) Hxk Hxi Hxj) as (Hw & He & _).
  fold e in Hw, He. fold index in Hw.
  destruct (weights_of_coordinate a weights values Hshape Hweights c Hc)
    as (Hlo & Hhi & Hmax).
  assert (Hoff : weightsOffset a c = strided_offset a 1 c 0).
  { apply (weightsOffset_exact a). unfold in64, min64.
    unfold kernel_volume in *. nia. }
  assert (Hany : forall s, strided_offset a s c 0 = strided_offset a 1 c 0).
  { intros s. unfold strided_offset. ring. }
  split; [|split].
  - rewrite Hw, Hoff. unfold strided_offset. ring.
  - now rewrite Hany.
  - intros Hne. rewrite Hw. unfold strided_offset. split.
    + intros Heq. assert (e * (last_stride - 1) = 0) by lia. nia.
    + intros ->. reflexivity.
Qed.

End KernelProperties.

(** *** Memory safety with the resolver of the specification *)

Lemma resolver_axis_in_range extent kernel_size dilation causal :
  1 <= kernel_size <= max32 -> 1 <= dilation -> 0 < extent ->
  axis_in_range Resolver.get_window_start Resolver.get_window_end extent
    kernel_size (div32 kernel_size 2) dilation causal = true.
Proof.
  intros Hk Hd Hextent.
  rewrite neighborhood_size_exact by exact Hk.
  apply axis_in_range_intro. intros p Hp. cbv zeta.
  pose proof (window_shape p extent kernel_size dilation causal Hp
                ltac:(lia) Hd) as Hshape.
  unfold window in Hshape.
  destruct Hshape as (t & Ht & Hpos & Hs & Hin & Hspan & Hend & _).
  lia.
Qed.

(** C6: with the resolver of the specification, under the caller
    preconditions (a valid shape with [dilation >= 1] on every axis,
    [kernel_size <= extent] on every axis, buffers of the right sizes
    and strides that describe [weights]), every position that the window
    loops visit lies in its axis, [enum] lies in [[0, kernel_volume)],
    every offset that the kernel reads or writes lies in its buffer, and
    the bounds-checked [launch] returns. *)
Theorem launch_in_bounds {scalar_t : Type} (zero : scalar_t)
    (add mul : scalar_t -> scalar_t -> scalar_t) a fuel
    (weights values output : list scalar_t) :
  valid_shape a ->
  kernel_size_0 a <= depth a ->
  kernel_size_1 a <= height a ->
  kernel_size_2 a <= width a ->
  valid_buffers a weights values output ->
  (fuel_needed a <= fuel)%nat ->
  let w0 := Kernel.window_0 Resolver.get_window_start Resolver.get_window_end a in
  let w1 := Kernel.window_1 Resolver.get_window_start Resolver.get_window_end a in
  let w2 := Kernel.window_2 Resolver.get_window_start Resolver.get_window_end a in
  (forall c d xk xi xj, in_space a c -> 0 <= d < dim a ->
     In xk (window_positions (w0 c) (dilation_0 a)) ->
     In xi (window_positions (w1 c) (dilation_1 a)) ->
     In xj (window_positions (w2 c) (dilation_2 a)) ->
     (0 <= xk < depth a /\ 0 <= xi < height a /\ 0 <= xj < width a)
     /\ 0 <= enum a (w0 c) (w1 c) (w2 c) xk xi xj < kernel_volume a
     /\ 0 <= weightsIndex a c (w_start (w0 c)) (w_start (w1 c))
               (w_start (w2 c)) xk xi xj < Z.of_nat (length weights)
     /\ 0 <= valuesIndex a c d xk xi xj < Z.of_nat (length values)
     /\ 0 <= linearIndex a c d < Z.of_nat (length output))
  /\ exists output',
       Kernel.launch zero add mul Resolver.get_window_start
         Resolver.get_window_end a fuel weights values output = Ok output'.
Proof.
  intros Hshape _ _ _ (Hweights & Hvalues & Hlen) Hfuel w0 w1 w2.
  pose proof Hshape as Hshape'. destruct Hshape'.
  assert (Hwindows : windows_in_range Resolver.get_window_start
                       Resolver.get_window_end a = true).
  { pose proof (kernel_sizes_fit a Hshape) as (Hk0 & Hk1 & Hk2).
    unfold windows_in_range. rewrite !andb_true_iff.
    repeat split; apply resolver_axis_in_range; assumption || lia. }
  split.
  - intros c d xk xi xj Hc Hd Hxk Hxi Hxj.
    destruct (window_sample_exact Resolver.get_window_start
                Resolver.get_window_end a weights values Hshape Hwindows
                Hweights Hvalues c d xk xi xj Hc Hd Hxk Hxi Hxj)
      as (Hw & He & Hwr & Hv & Hx & Hvr).
    fold w0 w1 w2 in Hw, He, Hwr.
    rewrite Hw, Hv, (linearIndex_exact a Hshape c d Hc Hd).
    pose proof (dense_offset_range a Hshape c d Hc Hd).
    unfold in_space in Hx. cbn [cb ch ck ci cj] in Hx.
    repeat split; lia.
  - destruct (launch_exact zero add mul Resolver.get_window_start
                Resolver.get_window_end a weights values Hshape Hwindows
                Hweights Hvalues fuel Hfuel output Hlen)
      as (output' & Hrun & _).
    now exists output'.
Qed.

(** *** The theorems at sample launches *)

Lemma small_valid_shape : valid_shape Sample.small.
Proof. constructor; vm_compute; easy. Qed.

Lemma small_valid_buffers :
  valid_buffers Sample.small Sample.small_weights Sample.small_values
    Sample.small_output.
Proof. repeat split. Qed.

Lemma launch_in_bounds_witness :
  let a := Sample.narrow in
  let w0 := Kernel.window_0 Resolver.get_window_start Resolver.get_window_end a in
  let w1 := Kernel.window_1 Resolver.get_window_start Resolver.get_window_end a in
  let w2 := Kernel.window_2 Resolver.get_window_start Resolver.get_window_end a in
  Sample.run a 3 Sample.narrow_weights Sample.narrow_values
    Sample.narrow_output = Ok [7; 8; 31]
  /\ (forall c d xk xi xj, in_space a c -> 0 <= d < dim a ->
        In xk (window_positions (w0 c) (dilation_0 a)) ->
        In xi (window_positions (w1 c) (dilation_1 a)) ->
        In xj (window_positions (w2 c) (dilation_2 a)) ->
        (0 <= xk < depth a /\ 0 <= xi < height a /\ 0 <= xj < width a)
        /\ 0 <= enum a (w0 c) (w1 c) (w2 c) xk xi xj < kernel_volume a
        /\ 0 <= weightsIndex a c (w_start (w0 c)) (w_start (w1 c))
                  (w_start (w2 c)) xk xi xj
             < Z.of_nat (length Sample.narrow_weights)
        /\ 0 <= valuesIndex a c d xk xi xj
             < Z.of_nat (length Sample.narrow_values)
        /\ 0 <= linearIndex a c d < Z.of_nat (length Sample.narrow_output))
  /\ exists output',
       Sample.run a 3 Sample.narrow_weights Sample.narrow_values
         Sample.narrow_output = Ok output'.
Proof.
  split; [reflexivity|].
  apply (launch_in_bounds 0 Z.add Z.mul Sample.narrow 3).
  - constructor; vm_compute; easy.
  - vm_compute. discriminate.
  - vm_compute. discriminate.
  - vm_compute. discriminate.
  - repeat split.
  - vm_compute. lia.
Defined.

Lemma small_windows_in_range :
  windows_in_range Resolver.get_window_start Resolver.get_window_end
    Sample.small = true.
Proof. reflexivity. Qed.

Lemma skew_valid_shape : valid_shape Sample.skew.
Proof. constructor; vm_compute; easy. Qed.

Lemma skew_valid_buffers :
  valid_buffers Sample.skew Sample.skew_weights Sample.skew_values
    Sample.skew_output.
Proof. repeat split. Qed.

Lemma skew_resolved_in_range :
  resolved_in_range Resolver.get_window_start Resolver.get_window_end
    Sample.skew = true.
Proof. reflexivity. Qed.

Lemma launch_weighted_sum_witness :
  let a := Sample.skew in
  let window_k := Kernel.window_k Resolver.get_window_start
                    Resolver.get_window_end a in
  let window_i := Kernel.window_i Resolver.get_window_start
                    Resolver.get_window_end a in
  let window_j := Kernel.window_j Resolver.get_window_start
                    Resolver.get_window_end a in
  (let c := Coordinate 1 0 3 1 4 in
   (window_k c, window_i c, window_j c)
   = (AxisWindow 1 4, AxisWindow 0 3, AxisWindow 4 5)
   /\ dense_offset a c 1 = 229
   /\ weighted_sum 0 Z.add Z.mul Resolver.get_window_start
        Resolver.get_window_end a Sample.skew_weights Sample.skew_values c 1
      = 825310)
  /\ exists output',
       Sample.run a 120 Sample.skew_weights Sample.skew_values
         Sample.skew_output = Ok output'
       /\ forall c d, in_space a c -> 0 <= d < dim a ->
            output' !! Z.to_nat (dense_offset a c d)
            = Some (weighted_sum 0 Z.add Z.mul Resolver.get_window_start
                      Resolver.get_window_end a Sample.skew_weights
                      Sample.skew_values c d)
            /\ weighted_sum 0 Z.add Z.mul Resolver.get_window_start
                 Resolver.get_window_end a Sample.skew_weights
                 Sample.skew_values c d
               = sum_of_sums 0 Z.add Z.mul Resolver.get_window_start
                   Resolver.get_window_end a Sample.skew_weights
                   Sample.skew_values c d
            /\ forall xk xi xj,
                 In xk (window_positions (window_k c) (dilation_0 a)) ->
                 In xi (window_positions (window_i c) (dilation_1 a)) ->
                 In xj (window_positions (window_j c) (dilation_2 a)) ->
                 0 <= enum a (window_k c) (window_i c) (window_j c) xk xi xj
                   < kernel_volume a.
Proof.
  split; [repeat split|].
  destruct (launch_weighted_sum 0 Z.add Z.mul Resolver.get_window_start
              Resolver.get_window_end Sample.skew 120 Sample.skew_weights
              Sample.skew_values Sample.skew_output)
    as (output' & Hrun & Hall).
  - exact skew_valid_shape.
  - exact skew_resolved_in_range.
  - exact skew_valid_buffers.
  - vm_compute. lia.
  - exists output'. split; [exact Hrun|]. intros c d Hc Hd.
    destruct (Hall c d Hc Hd) as (Hsum & Hlaws & Henum).
    split; [exact Hsum|]. split; [|exact Henum].
    apply Hlaws; intros; lia.
Defined.

Lemma launch_ordered_sum_witness :
  let a := Sample.skew in
  (let c := Coordinate 1 0 3 1 4 in
   window_order Resolver.get_window_start Resolver.get_window_end a c
   = [(1, 0, 4); (1, 1, 4); (1, 2, 4); (3, 0, 4); (3, 1, 4); (3, 2, 4)]
   /\ fold_left
        (fun updt x =>
           updt + term 0 Z.mul Resolver.get_window_start
                    Resolver.get_window_end a Sample.skew_weights
                    Sample.skew_values c 1 x)
        (window_order Resolver.get_window_start Resolver.get_window_end a c)
        0
      = 825310)
  /\ exists output',
       Sample.run a 120 Sample.skew_weights Sample.skew_values
         Sample.skew_output = Ok output'
       /\ forall c d, in_space a c -> 0 <= d < dim a ->
            output' !! Z.to_nat (dense_offset a c d)
            = Some (fold_left
                      (fun updt x =>
                         updt + term 0 Z.mul Resolver.get_window_start
                                  Resolver.get_window_end a
                                  Sample.skew_weights Sample.skew_values c d x)
                      (window_order Resolver.get_window_start
                         Resolver.get_window_end a c)
                      0).
Proof.
  split; [repeat split|].
  apply (launch_ordered_sum 0 Z.add Z.mul Resolver.get_window_start
           Resolver.get_window_end Sample.skew 120 Sample.skew_weights
           Sample.skew_values Sample.skew_output).
  - exact skew_valid_shape.
  - exact skew_resolved_in_range.
  - exact skew_valid_buffers.
  - vm_compute. lia.
Defined.

Lemma linearIndex_injective_witness :
  let a := Sample.small in
  let c := Coordinate 0 1 0 1 7 in
  let c' := Coordinate 0 1 0 0 8 in
  (linearIndex a c 1 = linearIndex a c' 0 -> c = c' /\ 1 = 0)
  /\ (c <> c' -> linearIndex a c 1 <> linearIndex a c' 0).
Proof.
  apply (linearIndex_injective Sample.small (Coordinate 0 1 0 1 7)
           (Coordinate 0 1 0 0 8) 1 0).
  - exact small_valid_shape.
  - repeat split; vm_compute; easy.
  - repeat split; vm_compute; easy.
  - vm_compute. easy.
  - vm_compute. easy.
Defined.

Lemma output_fully_populated_witness :
  let a := Sample.small in
  problem_size a = coordinate_count a
  /\ (forall x, 0 <= x < coordinate_count a ->
        in_space a (coordinates a x) /\ flatten a (coordinates a x) = x)
  /\ (forall c, in_space a c ->
        0 <= flatten a c < coordinate_count a
        /\ coordinates a (flatten a c) = c)
  /\ store_trace a = strided (Z.to_nat (coordinate_count a * dim a)) 0 1
  /\ NoDup (store_trace a)
  /\ exists output',
       Sample.run a 36 Sample.small_weights Sample.small_values
         Sample.small_output = Ok output'
       /\ fold_result
            (fun n out =>
               store out n
                 (element 0 Z.add Z.mul Resolver.get_window_start
                    Resolver.get_window_end a Sample.small_weights
                    Sample.small_values n))
            (store_trace a) Sample.small_output = Ok output'
       /\ length output' = length Sample.small_output
       /\ forall n, 0 <= n < coordinate_count a * dim a ->
            output' !! Z.to_nat n
            = Some (element 0 Z.add Z.mul Resolver.get_window_start
                      Resolver.get_window_end a Sample.small_weights
                      Sample.small_values n).
Proof.
  apply (output_fully_populated 0 Z.add Z.mul Resolver.get_window_start
           Resolver.get_window_end Sample.small 36 Sample.small_weights
           Sample.small_values Sample.small_output).
  - exact small_valid_shape.
  - exact small_windows_in_range.
  - exact small_valid_buffers.
  - vm_compute. lia.
Defined.

Lemma weights_last_stride_one_witness :
  let a := Sample.small in
  let c := Coordinate 0 1 0 1 4 in
  let w0 := Kernel.window_0 Resolver.get_window_start Resolver.get_window_end
              a c in
  let w1 := Kernel.window_1 Resolver.get_window_start Resolver.get_window_end
              a c in
  let w2 := Kernel.window_2 Resolver.get_window_start Resolver.get_window_end
              a c in
  (w0, w1, w2) = (AxisWindow 0 1, AxisWindow 0 2, AxisWindow 2 8)
  /\ forall last_stride,
       let e := enum a w0 w1 w2 0 1 6 in
       let index := weightsIndex a c (w_start w0) (w_start w1) (w_start w2)
                      0 1 6 in
       index = weightsOffset a c + e
       /\ weightsOffset a c = strided_offset a last_stride c 0
       /\ (e <> 0 ->
           (index = strided_offset a last_stride c e <-> last_stride = 1)).
Proof.
  split; [reflexivity|]. intros last_stride.
  apply (weights_last_stride_one 0 Resolver.get_window_start
           Resolver.get_window_end Sample.small Sample.small_weights
           (Coordinate 0 1 0 1 4) 0 1 6 last_stride).
  - exact small_valid_shape.
  - exact small_windows_in_range.
  - reflexivity.
  - repeat split; vm_compute; easy.
  - vm_compute. auto.
  - vm_compute. auto.
  - vm_compute. auto.
Defined.

(** ** Further facts about the kernel *)

Module LaunchFacts.
Import Entry.



Lemma for_loop_done {A} (body : Z -> A -> result A) fuel x e step acc :
  e <= x -> for_loop fuel x e step body acc = Ok acc.
Proof.
  intros Hle. destruct fuel; cbn [for_loop];
    destruct (Z.ltb_spec x e); (reflexivity || lia).
Qed.


Lemma mul32_zero_l y : mul32 0 y = 0.
Proof. reflexivity. Qed.

Lemma mul32_zero_r x : mul32 x 0 = 0.
Proof. unfold mul32. now rewrite Z.mul_0_r. Qed.

Lemma in_row_major get_window_start get_window_end a c xk xi xj :
  In (xk, xi, xj) (row_major get_window_start get_window_end a c) <->
  In xk (window_positions (window_0 get_window_start get_window_end a c)
           (dilation_0 a))
  /\ In xi (window_positions (window_1 get_window_start get_window_end a c)
              (dilation_1 a))
  /\ In xj (window_positions (window_2 get_window_start get_window_end a c)
              (dilation_2 a)).
Proof.
  unfold row_major. rewrite in_bind. split.
  - intros (xk' & Hk & Hin). apply in_bind in Hin as (xi' & Hi & Hin).
    apply in_bind in Hin as (xj' & Hj & [Heq | []]).
    injection Heq as -> -> ->. tauto.
  - intros (Hk & Hi & Hj). exists xk. split; [exact Hk|].
    apply in_bind. exists xi. split; [exact Hi|].
    apply in_bind. exists xj. split; [exact Hj|]. now left.
Qed.

Lemma NoDup_strided_step n start step :
  1 <= step -> NoDup (strided n start step).
Proof.
  intros Hstep. revert start.
  induction n as [|n IH]; intros start; cbn [strided].
  - constructor.
  - constructor; [|apply IH].
    rewrite list_elem_of_In, in_strided. intros (t & Ht & Heq). nia.
Qed.

Lemma NoDup_row_major get_window_start get_window_end a c :
  1 <= dilation_0 a -> 1 <= dilation_1 a -> 1 <= dilation_2 a ->
  NoDup (row_major get_window_start get_window_end a c).
Proof.
  intros H0 H1 H2. unfold row_major, window_positions.
  apply NoDup_bind; [| |now apply NoDup_strided_step].
  { intros x1 x2 [[yk yi] yj] _ _ Hy1 Hy2.
    rewrite list_elem_of_In in Hy1, Hy2.
    apply in_bind in Hy1 as (? & _ & Hy1).
    apply in_bind in Hy1 as (? & _ & [Hy1 | []]).
    apply in_bind in Hy2 as (? & _ & Hy2).
    apply in_bind in Hy2 as (? & _ & [Hy2 | []]). congruence. }
  intros xk _.
  apply NoDup_bind; [| |now apply NoDup_strided_step].
  { intros x1 x2 [[yk yi] yj] _ _ Hy1 Hy2.
    rewrite list_elem_of_In in Hy1, Hy2.
    apply in_bind in Hy1 as (? & _ & [Hy1 | []]).
    apply in_bind in Hy2 as (? & _ & [Hy2 | []]). congruence. }
  intros xi _.
  apply NoDup_bind; [| |now apply NoDup_strided_step].
  { intros x1 x2 [[yk yi] yj] _ _ Hy1 Hy2.
    rewrite list_elem_of_In in Hy1, Hy2.
    destruct Hy1 as [Hy1 | []], Hy2 as [Hy2 | []]. congruence. }
  intros xj _. apply NoDup_singleton.
Qed.

Lemma fmap_bind {A B C} (f : B -> C) (g : A -> list B) l :
  f <$> (l ≫= g) = l ≫= fun x => f <$> g x.
Proof.
  induction l as [|x l IH]; [reflexivity|].
  cbn [mbind list_bind]. rewrite fmap_app. f_equal. exact IH.
Qed.

(** A strided list, by the number of the step. *)
Lemma strided_reindex {B} (g : Z -> list B) n start step :
  strided n start step ≫= g
  = strided n 0 1 ≫= fun t => g (start + t * step).
Proof.
  enough (H : forall first,
            strided n (start + first * step) step ≫= g
            = strided n first 1 ≫= fun t => g (start + t * step)).
  { specialize (H 0). now rewrite Z.mul_0_l, Z.add_0_r in H. }
  induction n as [|n IH]; intros first; [reflexivity|].
  cbn [strided mbind list_bind]. f_equal.
  rewrite <- IH. do 2 f_equal. ring.
Qed.

Lemma strided_blocks_from n m base lo :
  (strided n lo 1 ≫= fun x => strided m (base + x * Z.of_nat m) 1)
  = strided (n * m) (base + lo * Z.of_nat m) 1.
Proof.
  revert lo. induction n as [|n IH]; intros lo; [reflexivity|].
  cbn [strided mbind list_bind Nat.mul]. rewrite IH, strided_app.
  do 2 f_equal. ring.
Qed.

End LaunchFacts.

(** ** Further properties of the kernel *)

Import Entry LaunchFacts.

Section LaunchProperties.

Context {scalar_t : Type}.
Variable zero : scalar_t.
Variable add mul : scalar_t -> scalar_t -> scalar_t.
Variable get_window_start : Z -> Z -> Z -> Z -> Z -> bool -> Z.
Variable get_window_end : Z -> Z -> Z -> Z -> Z -> Z -> bool -> Z.
Variable a : launch_args.

Abbreviation launch' :=
  (Kernel.launch zero add mul get_window_start get_window_end a).
Abbreviation chunk' :=
  (Kernel.chunk zero add mul get_window_start get_window_end a).
Abbreviation element' :=
  (Kernel.element zero add mul get_window_start get_window_end a).

(** X1: when one of the five extents is zero the flat range is empty:
    [launch] returns [output] as it is, whatever the buffers, the
    windows and the fuel, and the divisions by [width], [height],
    [depth] and [heads] are never reached. *)
Theorem launch_empty_space fuel (weights values output : list scalar_t) :
  batch_size a = 0 \/ heads a = 0 \/ depth a = 0 \/ height a = 0
  \/ width a = 0 ->
  problem_size a = 0 /\ launch' fuel weights values output = Ok output.
Proof.
  intros Hzero.
  assert (Hsize : problem_size a = 0).
  { unfold problem_size.
    destruct Hzero as [-> | [-> | [-> | [-> | ->]]]];
      rewrite ?mul32_zero_r, ?mul32_zero_l; reflexivity. }
  split; [exact Hsize|].
  unfold Kernel.launch, Kernel.chunk. rewrite Hsize.
  apply for_loop_done. lia.
Qed.


(** X3: [launch] writes inside the tensor only.  In an output buffer
    that is longer than the tensor, as when [output] points into a
    larger allocation, it returns, overwrites the
    [coordinate_count * dim] elements of the tensor with the values
    computed for them and leaves every element past the tensor as it
    was. *)
Theorem launch_writes_inside fuel (weights values output : list scalar_t) :
  valid_shape a ->
  windows_in_range get_window_start get_window_end a = true ->
  weights_in_range a weights = true ->
  Z.of_nat (length values) = coordinate_count a * dim a ->
  coordinate_count a * dim a <= Z.of_nat (length output) ->
  (fuel_needed a <= fuel)%nat ->
  exists output',
    Kernel.launch zero add mul get_window_start get_window_end a fuel weights
      values output = Ok output'
    /\ length output' = length output
    /\ (forall n, 0 <= n < coordinate_count a * dim a ->
          output' !! Z.to_nat n = Some (element' weights values n))
    /\ (forall n, coordinate_count a * dim a <= n ->
          output' !! Z.to_nat n = output !! Z.to_nat n).
Proof.
  intros Hshape Hwindows Hweights Hvalues Hlen Hfuel.
  destruct (launch_within zero add mul get_window_start get_window_end a
              weights values Hshape Hwindows Hweights Hvalues fuel Hfuel
              output Hlen)
    as (output' & Hrun & Hlen' & Hall).
  exists output'. split; [exact Hrun|]. split; [exact Hlen'|]. split.
  - intros n Hn. rewrite Hall by lia.
    destruct (Z.leb_spec 0 n), (Z.ltb_spec n (coordinate_count a * dim a));
      simpl; try reflexivity; lia.
  - intros n Hn.
    destruct (Z.lt_ge_cases n (Z.of_nat (length output))) as [Hlt | Hge].
    + pose proof Hshape as Hshape'. destruct Hshape'.
      assert (0 <= coordinate_count a * dim a)
        by (unfold coordinate_count; nia).
      rewrite Hall by lia.
      destruct (Z.leb_spec 0 n), (Z.ltb_spec n (coordinate_count a * dim a));
        simpl; try reflexivity; lia.
    + rewrite !(proj2 (lookup_ge_None _ _)) by lia. reflexivity.
Qed.

(** X4: [output] is written, never read: on a valid launch the returned
    buffer is the same for any two initial outputs of the right length,
    and launching again on the returned buffer returns it unchanged. *)
Theorem launch_overwrites_output fuel
    (weights values output1 output2 : list scalar_t) :
  valid_shape a ->
  windows_in_range get_window_start get_window_end a = true ->
  valid_buffers a weights values output1 ->
  Z.of_nat (length output2) = coordinate_count a * dim a ->
  (fuel_needed a <= fuel)%nat ->
  exists output',
    launch' fuel weights values output1 = Ok output'
    /\ launch' fuel weights values output2 = Ok output'
    /\ launch' fuel weights values output' = Ok output'.
Proof.
  intros Hshape Hwindows (Hweights & Hvalues & Hlen1) Hlen2 Hfuel.
  assert (Hany : forall out1 out2 r1 r2,
            Z.of_nat (length out1) = coordinate_count a * dim a ->
            Z.of_nat (length out2) = coordinate_count a * dim a ->
            launch' fuel weights values out1 = Ok r1 ->
            launch' fuel weights values out2 = Ok r2 -> r1 = r2).
  { intros out1 out2 r1 r2 H1 H2 Hr1 Hr2.
    destruct (launch_exact zero add mul get_window_start get_window_end a
                weights values Hshape Hwindows Hweights Hvalues fuel Hfuel
                out1 H1) as (r1' & Hr1' & Hl1 & Hall1).
    destruct (launch_exact zero add mul get_window_start get_window_end a
                weights values Hshape Hwindows Hweights Hvalues fuel Hfuel
                out2 H2) as (r2' & Hr2' & Hl2 & Hall2).
    assert (r1' = r1) by congruence. assert (r2' = r2) by congruence.
    subst. apply list_eq. intros i.
    destruct (Nat.lt_ge_cases i (length r1)) as [Hlt | Hge].
    - specialize (Hall1 (Z.of_nat i) ltac:(lia)).
      specialize (Hall2 (Z.of_nat i) ltac:(lia)).
      rewrite Nat2Z.id in *. congruence.
    - rewrite !(proj2 (lookup_ge_None _ _)) by lia. reflexivity. }
  destruct (launch_exact zero add mul get_window_start get_window_end a
              weights values Hshape Hwindows Hweights Hvalues fuel Hfuel
              output1 Hlen1) as (r1 & Hr1 & Hl1 & _).
  destruct (launch_exact zero add mul get_window_start get_window_end a
              weights values Hshape Hwindows Hweights Hvalues fuel Hfuel
              output2 Hlen2) as (r2 & Hr2 & Hl2 & _).
  destruct (launch_exact zero add mul get_window_start get_window_end a
              weights values Hshape Hwindows Hweights Hvalues fuel Hfuel
              r1 ltac:(lia)) as (r3 & Hr3 & Hl3 & _).
  exists r1. split; [exact Hr1|]. split.
  - rewrite Hr2. f_equal. symmetry. eapply Hany; [| |exact Hr1|exact Hr2]; lia.
  - rewrite Hr3. f_equal. symmetry.
    eapply (Hany output1 r1); [| |exact Hr1|exact Hr3]; lia.
Qed.

(** X5: the function that [at::parallel_for] runs on a chunk
    [[start, end)] of the flat range overwrites the output vectors of the
    coordinates of the chunk, the offsets [[start * dim, end * dim)], with
    their final values, and leaves every other element of [output] as it
    was. *)
Theorem chunk_writes_its_range fuel (weights values output : list scalar_t)
    start end_ :
  valid_shape a ->
  windows_in_range get_window_start get_window_end a = true ->
  valid_buffers a weights values output ->
  (fuel_needed a <= fuel)%nat ->
  0 <= start <= end_ -> end_ <= coordinate_count a ->
  exists output',
    chunk' fuel weights values start end_ output = Ok output'
    /\ length output' = length output
    /\ forall n, 0 <= n < coordinate_count a * dim a ->
         output' !! Z.to_nat n
         = if (start * dim a <=? n) && (n <? end_ * dim a)
           then Some (element' weights values n)
           else output !! Z.to_nat n.
Proof.
  intros Hshape Hwindows (Hweights & Hvalues & Hlen) Hfuel Hstart Hend.
  destruct (chunk_exact zero add mul get_window_start get_window_end a
              weights values Hshape Hwindows Hweights Hvalues fuel Hfuel
              start end_ output Hstart Hend Hlen)
    as (output' & Hrun & Hlen' & Hall).
  exists output'. split; [exact Hrun|]. split; [exact Hlen'|].
  intros n Hn. apply Hall. lia.
Qed.

Lemma run_chunks_exact fuel (weights values : list scalar_t) chunks :
  valid_shape a ->
  windows_in_range get_window_start get_window_end a = true ->
  weights_in_range a weights = true ->
  Z.of_nat (length values) = coordinate_count a * dim a ->
  (fuel_needed a <= fuel)%nat ->
  chunks_inside (coordinate_count a) chunks = true ->
  forall output,
    Z.of_nat (length output) = coordinate_count a * dim a ->
    exists output',
      run_chunks zero add mul get_window_start get_window_end a fuel weights
        values chunks output = Ok output'
      /\ length output' = length output
      /\ forall n, 0 <= n < coordinate_count a * dim a ->
           output' !! Z.to_nat n
           = if in_chunks chunks (n / dim a)
             then Some (element' weights values n)
             else output !! Z.to_nat n.
Proof.
  intros Hshape Hwindows Hweights Hvalues Hfuel.
  pose proof Hshape as Hshape'. destruct Hshape'.
  induction chunks as [|[start end_] chunks IH]; intros Hinside output Hlen.
  - exists output. repeat split.
  - cbn [chunks_inside forallb fst snd] in Hinside.
    rewrite !andb_true_iff, !Z.leb_le in Hinside.
    destruct Hinside as [[[Hs Hse] He] Hrest].
    destruct (chunk_exact zero add mul get_window_start get_window_end a
                weights values Hshape Hwindows Hweights Hvalues fuel Hfuel
                start end_ output ltac:(lia) He Hlen)
      as (out1 & Hrun1 & Hlen1 & Hall1).
    destruct (IH Hrest out1 ltac:(lia)) as (out2 & Hrun2 & Hlen2 & Hall2).
    exists out2. split; [|split; [congruence|]].
    + cbn [run_chunks]. rewrite Hrun1. exact Hrun2.
    + intros n Hn. rewrite Hall2 by exact Hn. rewrite Hall1 by lia.
      cbn [in_chunks existsb fst snd]. fold (in_chunks chunks (n / dim a)).
      assert (Hdiv : (start <=? n / dim a) && (n / dim a <? end_)
                     = (start * dim a <=? n) && (n <? end_ * dim a)).
      { pose proof (Z.div_mod n (dim a) ltac:(lia)).
        pose proof (Z.mod_pos_bound n (dim a) ltac:(lia)).
        destruct (Z.leb_spec start (n / dim a)),
          (Z.ltb_spec (n / dim a) end_),
          (Z.leb_spec (start * dim a) n),
          (Z.ltb_spec n (end_ * dim a)); cbn; try reflexivity; nia. }
      rewrite Hdiv.
      destruct ((start * dim a <=? n) && (n <? end_ * dim a)),
        (in_chunks chunks (n / dim a)); reflexivity.
Qed.

(** X6: the schedule of [at::parallel_for] does not show in the output:
    the function of lines 132-217 run on any list of chunks that lie in
    the flat range and cover it, in any order and also when chunks
    overlap, returns what [launch] returns. *)
Theorem launch_any_schedule fuel (weights values output : list scalar_t)
    chunks :
  valid_shape a ->
  windows_in_range get_window_start get_window_end a = true ->
  valid_buffers a weights values output ->
  (fuel_needed a <= fuel)%nat ->
  chunks_inside (coordinate_count a) chunks = true ->
  chunks_cover (coordinate_count a) chunks = true ->
  exists output',
    launch' fuel weights values output = Ok output'
    /\ run_chunks zero add mul get_window_start get_window_end a fuel weights
         values chunks output = Ok output'.
Proof.
  intros Hshape Hwindows (Hweights & Hvalues & Hlen) Hfuel Hinside Hcover.
  pose proof Hshape as Hshape'. destruct Hshape'.
  destruct (launch_exact zero add mul get_window_start get_window_end a
              weights values Hshape Hwindows Hweights Hvalues fuel Hfuel
              output Hlen) as (out1 & Hrun1 & Hlen1 & Hall1).
  destruct (run_chunks_exact fuel weights values chunks Hshape Hwindows
              Hweights Hvalues Hfuel Hinside output Hlen)
    as (out2 & Hrun2 & Hlen2 & Hall2).
  exists out1. split; [exact Hrun1|]. rewrite Hrun2. f_equal.
  apply list_eq. intros i.
  destruct (Nat.lt_ge_cases i (length output)) as [Hlt | Hge].
  - specialize (Hall1 (Z.of_nat i) ltac:(lia)).
    specialize (Hall2 (Z.of_nat i) ltac:(lia)).
    rewrite Nat2Z.id in *. rewrite Hall1, Hall2.
    unfold chunks_cover in Hcover. rewrite forallb_forall in Hcover.
    rewrite Hcover; [reflexivity|].
    apply in_range_strided.
    split; [apply Z.div_pos; lia|].
    apply Z.div_lt_upper_bound; lia.
  - rewrite !(proj2 (lookup_ge_None _ _)) by lia. reflexivity.
Qed.

Abbreviation window_0' :=
  (Kernel.window_0 get_window_start get_window_end a).
Abbreviation window_1' :=
  (Kernel.window_1 get_window_start get_window_end a).
Abbreviation window_2' :=
  (Kernel.window_2 get_window_start get_window_end a).

(** X7: an output element depends on its neighborhood only: two valid
    launches whose weights agree on the [kernel_volume] weights of a
    coordinate [(b, h, k, i, j)] and whose values agree, in the channel
    [d], on the positions of the three windows of that coordinate (in the
    same batch and head) leave the same [output[b, h, k, i, j, d]]. *)
Theorem output_depends_on_window fuel
    (weights1 values1 weights2 values2 output : list scalar_t) c d :
  valid_shape a ->
  windows_in_range get_window_start get_window_end a = true ->
  valid_buffers a weights1 values1 output ->
  valid_buffers a weights2 values2 output ->
  (fuel_needed a <= fuel)%nat ->
  in_space a c -> 0 <= d < dim a ->
  (forall e, 0 <= e < kernel_volume a ->
     at_offset zero weights1 (strided_offset a 1 c e)
     = at_offset zero weights2 (strided_offset a 1 c e)) ->
  (forall xk xi xj,
     In xk (window_positions (window_0' c) (dilation_0 a)) ->
     In xi (window_positions (window_1' c) (dilation_1 a)) ->
     In xj (window_positions (window_2' c) (dilation_2 a)) ->
     at_offset zero values1
       (dense_offset a (Coordinate (cb c) (ch c) xk xi xj) d)
     = at_offset zero values2
         (dense_offset a (Coordinate (cb c) (ch c) xk xi xj) d)) ->
  exists output1 output2,
    launch' fuel weights1 values1 output = Ok output1
    /\ launch' fuel weights2 values2 output = Ok output2
    /\ output1 !! Z.to_nat (dense_offset a c d)
       = output2 !! Z.to_nat (dense_offset a c d).
Proof.
  intros Hshape Hwindows (Hweights1 & Hvalues1 & Hlen)
    (Hweights2 & Hvalues2 & _) Hfuel Hc Hd Hsamew Hsamev.
  destruct (launch_exact zero add mul get_window_start get_window_end a
              weights1 values1 Hshape Hwindows Hweights1 Hvalues1 fuel Hfuel
              output Hlen) as (out1 & Hrun1 & _ & Hall1).
  destruct (launch_exact zero add mul get_window_start get_window_end a
              weights2 values2 Hshape Hwindows Hweights2 Hvalues2 fuel Hfuel
              output Hlen) as (out2 & Hrun2 & _ & Hall2).
  exists out1, out2. split; [exact Hrun1|]. split; [exact Hrun2|].
  pose proof (dense_offset_range a Hshape c d Hc Hd) as Hrange.
  rewrite Hall1, Hall2 by exact Hrange. f_equal.
  rewrite !(element_of_coordinate zero add mul get_window_start
              get_window_end a _ _ Hshape c d Hc Hd).
  unfold ordered_sum. apply fold_left_ext_in.
  intros updt [[xk xi] xj] Hin. f_equal.
  apply in_row_major in Hin as (Hxk & Hxi & Hxj).
  destruct (window_sample_exact get_window_start get_window_end a weights1
              values1 Hshape Hwindows Hweights1 Hvalues1 c d xk xi xj Hc Hd
              Hxk Hxi Hxj) as (Hw & He & _ & Hv & _).
  unfold product. rewrite Hw, Hv.
  rewrite (Hsamew _ He), (Hsamev xk xi xj Hxk Hxi Hxj). reflexivity.
Qed.

(** X8: while it accumulates one output element the kernel reads no
    element of [weights] twice and no element of [values] twice: the
    offsets of the reads are pairwise distinct. *)
Theorem reads_are_distinct (weights : list scalar_t) c d :
  valid_shape a ->
  windows_in_range get_window_start get_window_end a = true ->
  weights_in_range a weights = true ->
  in_space a c -> 0 <= d < dim a ->
  NoDup (weight_reads get_window_start get_window_end a c)
  /\ NoDup (value_reads get_window_start get_window_end a c d).
Proof.
  intros Hshape Hwindows Hweights Hc Hd.
  pose proof Hshape as Hshape'. destruct Hshape'.
  set (values := replicate (Z.to_nat (coordinate_count a * dim a)) zero).
  assert (Hvalues : Z.of_nat (length values) = coordinate_count a * dim a).
  { unfold values. rewrite length_replicate, Z2Nat.id; [reflexivity|].
    unfold coordinate_count. nia. }
  pose proof (fun xk xi xj =>
    window_sample_exact get_window_start get_window_end a weights values
      Hshape Hwindows Hweights Hvalues c d xk xi xj Hc Hd) as Hsample.
  destruct (windows_of_coordinate _ _ a Hwindows c Hc)
    as ((Hs0 & He0 & Hw0) & (Hs1 & He1 & Hw1) & (Hs2 & He2 & Hw2)).
  assert (Hsplit : forall xk xi xj,
            In (xk, xi, xj) (row_major get_window_start get_window_end a c) ->
            exists t0 t1 t2,
              (0 <= t0 < kernel_size_0 a /\ 0 <= t1 < kernel_size_1 a
               /\ 0 <= t2 < kernel_size_2 a)
              /\ xk = w_start (window_0' c) + t0 * dilation_0 a
              /\ xi = w_start (window_1' c) + t1 * dilation_1 a
              /\ xj = w_start (window_2' c) + t2 * dilation_2 a
              /\ enum a (window_0' c) (window_1' c) (window_2' c) xk xi xj
                 = t0 * kernel_size_1 a * kernel_size_2 a
                   + t1 * kernel_size_2 a + t2).
  { intros xk xi xj Hin. apply in_row_major in Hin as (Hxk & Hxi & Hxj).
    apply positions_in_window with (kernel_size := kernel_size_0 a) in Hxk
      as (t0 & Ht0 & Ek & _); [|lia..].
    apply positions_in_window with (kernel_size := kernel_size_1 a) in Hxi
      as (t1 & Ht1 & Ei & _); [|lia..].
    apply positions_in_window with (kernel_size := kernel_size_2 a) in Hxj
      as (t2 & Ht2 & Ej & _); [|lia..].
    exists t0, t1, t2. repeat split; try lia.
    unfold enum. rewrite Ek, Ei, Ej.
    replace (w_start (window_0' c) + t0 * dilation_0 a - w_start (window_0' c))
      with (t0 * dilation_0 a) by ring.
    replace (w_start (window_1' c) + t1 * dilation_1 a - w_start (window_1' c))
      with (t1 * dilation_1 a) by ring.
    replace (w_start (window_2' c) + t2 * dilation_2 a - w_start (window_2' c))
      with (t2 * dilation_2 a) by ring.
    rewrite !Z.div_mul by lia. reflexivity. }
  split.
  - apply NoDup_fmap_2_strong; [|apply NoDup_row_major; lia].
    intros [[xk xi] xj] [[yk yi] yj] Hx Hy Heq.
    rewrite list_elem_of_In in Hx, Hy.
    pose proof Hx as Hx'. pose proof Hy as Hy'.
    apply in_row_major in Hx' as (Hxk & Hxi & Hxj).
    apply in_row_major in Hy' as (Hyk & Hyi & Hyj).
    destruct (Hsample xk xi xj Hxk Hxi Hxj) as (Hwx & _).
    destruct (Hsample yk yi yj Hyk Hyi Hyj) as (Hwy & _).
    rewrite Hwx, Hwy in Heq.
    destruct (Hsplit _ _ _ Hx) as (t0 & t1 & t2 & Ht & -> & -> & -> & Ex).
    destruct (Hsplit _ _ _ Hy) as (u0 & u1 & u2 & Hu & -> & -> & -> & Ey).
    rewrite Ex, Ey in Heq. unfold strided_offset in Heq.
    assert (Hflat : (t0 * kernel_size_1 a + t1) * kernel_size_2 a + t2
                    = (u0 * kernel_size_1 a + u1) * kernel_size_2 a + u2)
      by lia.
    apply radix_unique in Hflat as [Hflat ->]; [|lia..].
    apply radix_unique in Hflat as [-> ->]; [|lia..].
    reflexivity.
  - apply NoDup_fmap_2_strong; [|apply NoDup_row_major; lia].
    intros [[xk xi] xj] [[yk yi] yj] Hx Hy Heq.
    rewrite list_elem_of_In in Hx, Hy.
    apply in_row_major in Hx as (Hxk & Hxi & Hxj).
    apply in_row_major in Hy as (Hyk & Hyi & Hyj).
    destruct (Hsample xk xi xj Hxk Hxi Hxj) as (_ & _ & _ & Hvx & Hinx & _).
    destruct (Hsample yk yi yj Hyk Hyi Hyj) as (_ & _ & _ & Hvy & Hiny & _).
    rewrite Hvx, Hvy in Heq. unfold dense_offset in Heq.
    apply radix_unique in Heq as [Hflat _]; [|lia..].
    apply (flatten_injective a) in Hflat; [|assumption..].
    congruence.
Qed.

(** X9: when the three windows of a coordinate are full ([kernel_size]
    samples on each axis) the window loops read the [kernel_volume]
    weights of the coordinate once each, at consecutive offsets from
    [weights[b, h, k, i, j, 0]], in increasing order. *)
Theorem full_window_reads_all_weights (weights : list scalar_t) c :
  valid_shape a ->
  windows_in_range get_window_start get_window_end a = true ->
  weights_in_range a weights = true ->
  in_space a c ->
  length (window_positions (window_0' c) (dilation_0 a))
  = Z.to_nat (kernel_size_0 a) ->
  length (window_positions (window_1' c) (dilation_1 a))
  = Z.to_nat (kernel_size_1 a) ->
  length (window_positions (window_2' c) (dilation_2 a))
  = Z.to_nat (kernel_size_2 a) ->
  weight_reads get_window_start get_window_end a c
  = strided (Z.to_nat (kernel_volume a)) (strided_offset a 1 c 0) 1.
Proof.
  intros Hshape Hwindows Hweights Hc Hfull0 Hfull1 Hfull2.
  pose proof Hshape as Hshape'. destruct Hshape'.
  destruct (windows_of_coordinate _ _ a Hwindows c Hc)
    as ((Hs0 & He0 & Hw0) & (Hs1 & He1 & Hw1) & (Hs2 & He2 & Hw2)).
  set (values := replicate (Z.to_nat (coordinate_count a * dim a)) zero).
  assert (Hvalues : Z.of_nat (length values) = coordinate_count a * dim a).
  { unfold values. rewrite length_replicate, Z2Nat.id; [reflexivity|].
    unfold coordinate_count. nia. }
  destruct (weights_of_coordinate a weights values Hshape Hweights c Hc)
    as (Hlo & Hhi & Hmax).
  unfold window_positions in Hfull0, Hfull1, Hfull2.
  rewrite length_strided in Hfull0, Hfull1, Hfull2.
  assert (Hmember : forall t n, In t (strided (Z.to_nat n) 0 1) -> 0 <= t < n).
  { intros t n Hin. apply in_strided in Hin as (u & Hu & ->). lia. }
  assert (Hpos : forall w dilation kernel_size t,
            1 <= dilation -> 1 <= kernel_size -> 0 <= t < kernel_size ->
            sample_count (w_start w) (w_end w) dilation = Z.to_nat kernel_size ->
            w_start w + t * dilation < w_end w).
  { intros w dilation kernel_size t Hdil Hk Ht Hcount.
    destruct (Z.le_gt_cases (w_end w) (w_start w)) as [Hempty | Hlt].
    - rewrite sample_count_empty in Hcount by lia. lia.
    - pose proof (sample_count_ceil (w_start w) (w_end w) dilation Hdil
                    ltac:(lia)) as Hceil.
      rewrite Hcount, Z2Nat.id in Hceil by lia.
      pose proof (Z.mul_div_le (w_end w - w_start w + dilation - 1) dilation
                    ltac:(lia)).
      nia. }
  unfold weight_reads, row_major, window_positions.
  rewrite Hfull0, Hfull1, Hfull2.
  rewrite fmap_bind, strided_reindex.
  transitivity
    (strided (Z.to_nat (kernel_size_0 a)) 0 1 ≫= fun t0 =>
     strided (Z.to_nat (kernel_size_1 a) * Z.to_nat (kernel_size_2 a))
       (strided_offset a 1 c 0
        + t0 * Z.of_nat (Z.to_nat (kernel_size_1 a)
                         * Z.to_nat (kernel_size_2 a))) 1).
  - apply bind_ext_in. intros t0 Ht0. apply Hmember in Ht0.
    rewrite fmap_bind, strided_reindex.
    set (base0 := strided_offset a 1 c 0
                  + t0 * Z.of_nat (Z.to_nat (kernel_size_1 a)
                                   * Z.to_nat (kernel_size_2 a))).
    replace base0 with (base0 + 0 * Z.of_nat (Z.to_nat (kernel_size_2 a)))
      by ring.
    rewrite <- strided_blocks_from.
    apply bind_ext_in. intros t1 Ht1. apply Hmember in Ht1.
    rewrite fmap_bind, strided_reindex.
    set (base1 := base0 + t1 * Z.of_nat (Z.to_nat (kernel_size_2 a))).
    replace base1 with (base1 + 0) by ring.
    rewrite <- strided_offsets.
    apply bind_ext_in. intros t2 Ht2. apply Hmember in Ht2.
    subst base1 base0.
    cbn [fmap list_fmap]. f_equal.
    pose proof (Hpos (window_0' c) _ _ t0 dilation_0_pos0
                  kernel_size_0_pos0 Ht0 Hfull0) as Hin0.
    pose proof (Hpos (window_1' c) _ _ t1 dilation_1_pos0
                  kernel_size_1_pos0 Ht1 Hfull1) as Hin1.
    pose proof (Hpos (window_2' c) _ _ t2 dilation_2_pos0
                  kernel_size_2_pos0 Ht2 Hfull2) as Hin2.
    assert (Hfit : strided_offset a 1 c 0 + kernel_volume a <= max64) by lia.
    destruct (weightsIndex_exact a Hshape c (w_start (window_0' c))
                (w_start (window_1' c)) (w_start (window_2' c)) t0 t1 t2
                Hlo Hfit Hs0 Hs1 Hs2 Ht0 Ht1 Ht2 ltac:(lia) ltac:(lia)
                ltac:(lia)) as [Hidx _].
    cbv zeta in Hidx. rewrite Hidx. unfold strided_offset.
    rewrite Nat2Z.inj_mul, !Z2Nat.id by lia. ring.
  - rewrite strided_blocks_from. f_equal; [|ring].
    unfold kernel_volume. rewrite !Z2Nat.inj_mul by nia. lia.
Qed.

(** X11: the aggregation is additive in the values.  In an arithmetic
    whose addition is associative and commutative with [zero + zero = zero]
    and whose product distributes over it, launching on the elementwise
    sum of two value buffers returns the elementwise sum of the two
    outputs. *)
Theorem launch_adds_values fuel
    (weights values1 values2 output : list scalar_t) :
  (forall x y z, add x (add y z) = add (add x y) z) ->
  (forall x y, add x y = add y x) ->
  add zero zero = zero ->
  (forall w x y, mul w (add x y) = add (mul w x) (mul w y)) ->
  valid_shape a ->
  windows_in_range get_window_start get_window_end a = true ->
  valid_buffers a weights values1 output ->
  valid_buffers a weights values2 output ->
  (fuel_needed a <= fuel)%nat ->
  exists output1 output2,
    launch' fuel weights values1 output = Ok output1
    /\ launch' fuel weights values2 output = Ok output2
    /\ launch' fuel weights (zip_with add values1 values2) output
       = Ok (zip_with add output1 output2).
Proof.
  intros Hassoc Hcomm Hzero Hdistr Hshape Hwindows
    (Hweights & Hvalues1 & Hlen) (_ & Hvalues2 & _) Hfuel.
  set (values12 := zip_with add values1 values2).
  assert (Hvalues12 : Z.of_nat (length values12) = coordinate_count a * dim a).
  { unfold values12. rewrite length_zip_with. lia. }
  destruct (launch_exact zero add mul get_window_start get_window_end a
              weights values1 Hshape Hwindows Hweights Hvalues1 fuel Hfuel
              output Hlen) as (out1 & Hrun1 & Hlen1 & Hall1).
  destruct (launch_exact zero add mul get_window_start get_window_end a
              weights values2 Hshape Hwindows Hweights Hvalues2 fuel Hfuel
              output Hlen) as (out2 & Hrun2 & Hlen2 & Hall2).
  destruct (launch_exact zero add mul get_window_start get_window_end a
              weights values12 Hshape Hwindows Hweights Hvalues12 fuel Hfuel
              output Hlen) as (out12 & Hrun12 & Hlen12 & Hall12).
  exists out1, out2. split; [exact Hrun1|]. split; [exact Hrun2|].
  rewrite Hrun12. f_equal.
  assert (Hswap : forall u1 u2 p1 p2,
            add (add u1 u2) (add p1 p2) = add (add u1 p1) (add u2 p2)).
  { intros u1 u2 p1 p2.
    rewrite <- (Hassoc u1 u2), (Hassoc u2 p1), (Hcomm u2 p1).
    rewrite <- (Hassoc p1 u2), (Hassoc u1 p1). reflexivity. }
  assert (Hat : forall n, 0 <= n < Z.of_nat (length values1) ->
            at_offset zero values12 n
            = add (at_offset zero values1 n) (at_offset zero values2 n)).
  { intros n Hn. unfold at_offset, values12.
    rewrite !nth_lookup, lookup_zip_with.
    destruct (lookup_lt_is_Some_2 values1 (Z.to_nat n) ltac:(lia)) as [x ->].
    destruct (lookup_lt_is_Some_2 values2 (Z.to_nat n) ltac:(lia)) as [y ->].
    reflexivity. }
  assert (Hfold : forall (p1 p2 p12 : Z * Z * Z -> scalar_t) l u1 u2,
            (forall x, In x l -> p12 x = add (p1 x) (p2 x)) ->
            fold_left (fun u x => add u (p12 x)) l (add u1 u2)
            = add (fold_left (fun u x => add u (p1 x)) l u1)
                  (fold_left (fun u x => add u (p2 x)) l u2)).
  { intros p1 p2 p12 l. induction l as [|x l IH]; intros u1 u2 Hp;
      [reflexivity|].
    cbn [fold_left]. rewrite (Hp x) by (now left). rewrite Hswap.
    apply IH. intros y Hy. apply Hp. now right. }
  apply list_eq. intros i. rewrite lookup_zip_with.
  destruct (Nat.lt_ge_cases i (length output)) as [Hlt | Hge].
  - specialize (Hall1 (Z.of_nat i) ltac:(lia)).
    specialize (Hall2 (Z.of_nat i) ltac:(lia)).
    specialize (Hall12 (Z.of_nat i) ltac:(lia)).
    rewrite Nat2Z.id in *. rewrite Hall1, Hall2, Hall12.
    cbn [mbind option_bind]. f_equal.
    unfold Kernel.element, ordered_sum.
    pose proof Hshape as Hshape'. destruct Hshape'.
    assert (Hcount : 0 < coordinate_count a)
      by (unfold coordinate_count; nia).
    destruct (coordinates_in_space a Hshape (Z.of_nat i / dim a))
      as [Hc _].
    { split; [apply Z.div_pos; lia | apply Z.div_lt_upper_bound; lia]. }
    pose proof (Z.mod_pos_bound (Z.of_nat i) (dim a) ltac:(lia)) as Hd.
    rewrite <- Hzero at 1. apply Hfold.
    intros [[xk xi] xj] Hin.
    apply in_row_major in Hin as (Hxk & Hxi & Hxj).
    destruct (window_sample_exact get_window_start get_window_end a weights
                values1 Hshape Hwindows Hweights Hvalues1 _ _ xk xi xj Hc Hd
                Hxk Hxi Hxj) as (_ & _ & _ & Hv & _ & Hvr).
    unfold product. rewrite Hat by (rewrite Hv; exact Hvr).
    apply Hdistr.
  - rewrite !(proj2 (lookup_ge_None _ _)) by lia. reflexivity.
Qed.

End LaunchProperties.

(** X10: [operator()] hands its arguments to [launch] in the right
    places.  Called with the extents, the strides and the per-axis
    triples of a valid problem, in the order of its own parameter list
    ([batch_size, heads, depth, height, width, dim], the five strides,
    then [kernel_size], [dilation] and [is_causal]), it returns, and
    the output, seen with the shape
    [(batch_size, heads, depth, height, width, dim)], densely packed,
    holds at [[b, h, k, i, j, d]] the weighted sum of section 4.3 for
    that problem: axis 0 is [depth] with the first component of each
    triple, axis 1 [height] with the second, axis 2 [width] with the
    third. *)
Theorem operator_fills_output {scalar_t : Type} (zero : scalar_t)
    (add mul : scalar_t -> scalar_t -> scalar_t)
    get_window_start get_window_end fuel
    (attn_ptr value_ptr output_ptr : list scalar_t) (a : launch_args) :
  valid_shape a ->
  resolved_in_range get_window_start get_window_end a = true ->
  valid_buffers a attn_ptr value_ptr output_ptr ->
  (fuel_needed a <= fuel)%nat ->
  exists output',
    NeighborhoodNeighborhood3D zero add mul get_window_start get_window_end
      fuel attn_ptr value_ptr output_ptr
      (batch_size a) (heads a) (depth a) (height a) (width a) (dim a)
      (weights_stride_0 a) (weights_stride_1 a) (weights_stride_2 a)
      (weights_stride_3 a) (weights_stride_4 a)
      (kernel_size_0 a, kernel_size_1 a, kernel_size_2 a)
      (dilation_0 a, dilation_1 a, dilation_2 a)
      (fst (fst (is_causal a)), snd (fst (is_causal a)), snd (is_causal a))
    = Ok output'
    /\ forall b h k i j d,
         0 <= b < batch_size a -> 0 <= h < heads a -> 0 <= k < depth a ->
         0 <= i < height a -> 0 <= j < width a -> 0 <= d < dim a ->
         output' !! Z.to_nat
           (((((b * heads a + h) * depth a + k) * height a + i) * width a + j)
            * dim a + d)
         = Some (weighted_sum zero add mul get_window_start get_window_end a
                   attn_ptr value_ptr (Coordinate b h k i j) d).
Proof.
  intros Hshape Hresolved (Hweights & Hvalues & Hlen) Hfuel.
  unfold NeighborhoodNeighborhood3D.
  assert (Hargs : operator_args (batch_size a) (heads a) (depth a)
                    (height a) (width a) (dim a) (weights_stride_0 a)
                    (weights_stride_1 a) (weights_stride_2 a)
                    (weights_stride_3 a) (weights_stride_4 a)
                    (kernel_size_0 a, kernel_size_1 a, kernel_size_2 a)
                    (dilation_0 a, dilation_1 a, dilation_2 a)
                    (fst (fst (is_causal a)), snd (fst (is_causal a)),
                     snd (is_causal a))
                  = a).
  { destruct a as [? ? ? ? ? ? ? ? ? ? ? ? ? ? ? ? ? [[? ?] ?]].
    reflexivity. }
  rewrite Hargs.
  destruct (launch_reference zero add mul get_window_start get_window_end a
              Hshape attn_ptr value_ptr Hresolved Hweights Hvalues fuel
              output_ptr Hfuel Hlen)
    as (output' & Hrun & Hall).
  exists output'. split; [exact Hrun|].
  intros b h k i j d Hb Hh Hk Hi Hj Hd.
  assert (Hc : in_space a (Coordinate b h k i j)).
  { unfold in_space. cbn. tauto. }
  exact (Hall _ d Hc Hd).
Qed.

(** *** The further properties at sample launches *)

Lemma launch_empty_space_witness :
  let a := Sample.args 2 3 4 5 0 6 (1, 1, 1) (1, 1, 1) (false, false, false) in
  problem_size a = 0 /\ Sample.run a 0 [] [] [7; 8] = Ok [7; 8].
Proof.
  apply (launch_empty_space 0 Z.add Z.mul Resolver.get_window_start
           Resolver.get_window_end
           (Sample.args 2 3 4 5 0 6 (1, 1, 1) (1, 1, 1) (false, false, false))
           0 [] [] [7; 8]).
  right. right. right. right. reflexivity.
Defined.


Lemma launch_writes_inside_witness :
  let a := Sample.small in
  let output := Sample.small_output ++ [7; 8; 9] in
  (out ← Sample.run a 36 Sample.small_weights Sample.small_values output;
   mret (drop 72 out)) = Ok [7; 8; 9]
  /\ exists output',
       Sample.run a 36 Sample.small_weights Sample.small_values output
       = Ok output'
       /\ length output' = length output
       /\ (forall n, 0 <= n < coordinate_count a * dim a ->
             output' !! Z.to_nat n
             = Some (Kernel.element 0 Z.add Z.mul Resolver.get_window_start
                       Resolver.get_window_end a Sample.small_weights
                       Sample.small_values n))
       /\ (forall n, coordinate_count a * dim a <= n ->
             output' !! Z.to_nat n = output !! Z.to_nat n).
Proof.
  split; [vm_compute; reflexivity|].
  apply (launch_writes_inside 0 Z.add Z.mul Resolver.get_window_start
           Resolver.get_window_end Sample.small 36 Sample.small_weights
           Sample.small_values (Sample.small_output ++ [7; 8; 9])).
  - exact small_valid_shape.
  - exact small_windows_in_range.
  - reflexivity.
  - reflexivity.
  - vm_compute. discriminate.
  - vm_compute. lia.
Defined.

Lemma launch_overwrites_output_witness :
  exists output',
    Sample.run Sample.small 36 Sample.small_weights Sample.small_values
      Sample.small_output = Ok output'
    /\ Sample.run Sample.small 36 Sample.small_weights Sample.small_values
         (replicate 72 5) = Ok output'
    /\ Sample.run Sample.small 36 Sample.small_weights Sample.small_values
         output' = Ok output'.
Proof.
  apply (launch_overwrites_output 0 Z.add Z.mul Resolver.get_window_start
           Resolver.get_window_end Sample.small 36 Sample.small_weights
           Sample.small_values Sample.small_output (replicate 72 5)).
  - exact small_valid_shape.
  - exact small_windows_in_range.
  - exact small_valid_buffers.
  - reflexivity.
  - vm_compute. lia.
Defined.

Lemma chunk_writes_its_range_witness :
  exists output',
    Kernel.chunk 0 Z.add Z.mul Resolver.get_window_start
      Resolver.get_window_end Sample.small 36 Sample.small_weights
      Sample.small_values 10 20 Sample.small_output = Ok output'
    /\ length output' = length Sample.small_output
    /\ forall n, 0 <= n < coordinate_count Sample.small * dim Sample.small ->
         output' !! Z.to_nat n
         = if (10 * dim Sample.small <=? n) && (n <? 20 * dim Sample.small)
           then Some (Kernel.element 0 Z.add Z.mul Resolver.get_window_start
                        Resolver.get_window_end Sample.small
                        Sample.small_weights Sample.small_values n)
           else Sample.small_output !! Z.to_nat n.
Proof.
  apply (chunk_writes_its_range 0 Z.add Z.mul Resolver.get_window_start
           Resolver.get_window_end Sample.small 36 Sample.small_weights
           Sample.small_values Sample.small_output 10 20).
  - exact small_valid_shape.
  - exact small_windows_in_range.
  - exact small_valid_buffers.
  - vm_compute. lia.
  - lia.
  - vm_compute. discriminate.
Defined.

Lemma launch_any_schedule_witness :
  exists output',
    Sample.run Sample.small 36 Sample.small_weights Sample.small_values
      Sample.small_output = Ok output'
    /\ run_chunks 0 Z.add Z.mul Resolver.get_window_start
         Resolver.get_window_end Sample.small 36 Sample.small_weights
         Sample.small_values [(20, 36); (0, 12); (10, 20)]
         Sample.small_output = Ok output'.
Proof.
  apply (launch_any_schedule 0 Z.add Z.mul Resolver.get_window_start
           Resolver.get_window_end Sample.small 36 Sample.small_weights
           Sample.small_values Sample.small_output
           [(20, 36); (0, 12); (10, 20)]).
  - exact small_valid_shape.
  - exact small_windows_in_range.
  - exact small_valid_buffers.
  - vm_compute. lia.
  - reflexivity.
  - reflexivity.
Defined.

Lemma output_depends_on_window_witness :
  let a := Sample.small in
  let c := Coordinate 0 0 0 0 0 in
  exists output1 output2,
    Sample.run a 36 Sample.small_weights Sample.small_values
      Sample.small_output = Ok output1
    /\ Sample.run a 36 Sample.other_weights Sample.other_values
         Sample.small_output = Ok output2
    /\ output1 !! Z.to_nat (dense_offset a c 0)
       = output2 !! Z.to_nat (dense_offset a c 0).
Proof.
  apply (output_depends_on_window 0 Z.add Z.mul Resolver.get_window_start
           Resolver.get_window_end Sample.small 36 Sample.small_weights
           Sample.small_values Sample.other_weights Sample.other_values
           Sample.small_output (Coordinate 0 0 0 0 0) 0).
  - exact small_valid_shape.
  - exact small_windows_in_range.
  - exact small_valid_buffers.
  - repeat split.
  - vm_compute. lia.
  - repeat split; vm_compute; easy.
  - split; vm_compute; easy.
  - intros e He. change (kernel_volume Sample.small) with 6 in He.
    assert (Hcases : e = 0 \/ e = 1 \/ e = 2 \/ e = 3 \/ e = 4 \/ e = 5)
      by lia.
    destruct Hcases as [-> | [-> | [-> | [-> | [-> | ->]]]]]; reflexivity.
  - intros xk xi xj Hk Hi Hj. vm_compute in Hk, Hi, Hj.
    destruct Hk as [<- | []], Hi as [<- | []],
      Hj as [<- | [<- | [<- | []]]]; reflexivity.
Defined.

Lemma reads_are_distinct_witness :
  let a := Sample.small in
  let c := Coordinate 0 1 0 1 4 in
  weight_reads Resolver.get_window_start Resolver.get_window_end a c
  = [186; 187; 188; 189; 190; 191]
  /\ NoDup (weight_reads Resolver.get_window_start Resolver.get_window_end
              a c)
  /\ NoDup (value_reads Resolver.get_window_start Resolver.get_window_end
              a c 1).
Proof.
  split; [reflexivity|].
  apply (reads_are_distinct 0 Resolver.get_window_start
           Resolver.get_window_end Sample.small Sample.small_weights
           (Coordinate 0 1 0 1 4) 1).
  - exact small_valid_shape.
  - exact small_windows_in_range.
  - reflexivity.
  - repeat split; vm_compute; easy.
  - split; vm_compute; easy.
Defined.

Lemma full_window_reads_all_weights_witness :
  let a := Sample.small in
  let c := Coordinate 0 1 0 1 4 in
  weight_reads Resolver.get_window_start Resolver.get_window_end a c
  = strided (Z.to_nat (kernel_volume a)) (strided_offset a 1 c 0) 1.
Proof.
  apply (full_window_reads_all_weights 0 Resolver.get_window_start
           Resolver.get_window_end Sample.small Sample.small_weights
           (Coordinate 0 1 0 1 4)).
  - exact small_valid_shape.
  - exact small_windows_in_range.
  - reflexivity.
  - repeat split; vm_compute; easy.
  - reflexivity.
  - reflexivity.
  - reflexivity.
Defined.

Lemma operator_fills_output_witness :
  exists output',
    NeighborhoodNeighborhood3D 0 Z.add Z.mul Resolver.get_window_start
      Resolver.get_window_end 120 Sample.skew_weights Sample.skew_values
      Sample.skew_output 2 1 4 3 5 2 360 360 90 30 6 (2, 3, 1) (2, 1, 3)
      (true, false, false) = Ok output'
    /\ forall b h k i j d,
         0 <= b < 2 -> 0 <= h < 1 -> 0 <= k < 4 ->
         0 <= i < 3 -> 0 <= j < 5 -> 0 <= d < 2 ->
         output' !! Z.to_nat
           (((((b * 1 + h) * 4 + k) * 3 + i) * 5 + j) * 2 + d)
         = Some (weighted_sum 0 Z.add Z.mul Resolver.get_window_start
                   Resolver.get_window_end Sample.skew Sample.skew_weights
                   Sample.skew_values (Coordinate b h k i j) d).
Proof.
  apply (operator_fills_output 0 Z.add Z.mul Resolver.get_window_start
           Resolver.get_window_end 120 Sample.skew_weights Sample.skew_values
           Sample.skew_output Sample.skew).
  - exact skew_valid_shape.
  - exact skew_resolved_in_range.
  - exact skew_valid_buffers.
  - vm_compute. lia.
Defined.

Lemma launch_adds_values_witness :
  exists output1 output2,
    Sample.run Sample.small 36 Sample.small_weights Sample.small_values
      Sample.small_output = Ok output1
    /\ Sample.run Sample.small 36 Sample.small_weights Sample.other_values
         Sample.small_output = Ok output2
    /\ Sample.run Sample.small 36 Sample.small_weights
         (zip_with Z.add Sample.small_values Sample.other_values)
         Sample.small_output
       = Ok (zip_with Z.add output1 output2).
Proof.
  apply (launch_adds_values 0 Z.add Z.mul Resolver.get_window_start
           Resolver.get_window_end Sample.small 36 Sample.small_weights
           Sample.small_values Sample.other_values Sample.small_output).
  - intros x y z. lia.
  - intros x y. lia.
  - reflexivity.
  - intros w x y. lia.
  - exact small_valid_shape.
  - exact small_windows_in_range.
  - exact small_valid_buffers.
  - repeat split.
  - vm_compute. lia.
Defined.
